(** * pg_connlimit: per-role connection limits read from a directory

    A shallow embedding of [pg_connlimit.c].  The module installs a
    [ClientAuthentication_hook]; after a successful authentication it runs
    [enforce_limit], which maps the role name to the file
    [<connlimit.directory>/<role>], reads an integer from it and ends the
    backend with a FATAL error when the role already has that many backends.

    C strings are [string]s read up to their first NUL byte, C integers are
    [Z], and the process state the function touches ([errno], the module's
    globals, the file system, the calls it makes) is an explicit [world]
    threaded through every step. *)

From Stdlib Require Import ZArith List String Ascii Bool Lia.
Import ListNotations.
Local Open Scope string_scope.
Local Open Scope Z_scope.

(** ** Constants of the host platform (Linux, LP64) *)

Definition EAGAIN : Z := 11.
Definition EINVAL : Z := 22.
Definition ERANGE : Z := 34.
Definition LONG_MAX : Z := 9223372036854775807.
Definition LONG_MIN : Z := -9223372036854775808.
Definition STATUS_OK : Z := 0.
Definition STATUS_ERROR : Z := -1.
Definition InvalidOid : Z := 0.

(** [sizeof '\0']: in C a character constant has type [int]. *)
Definition sizeof_char_constant : Z := 4.

(** First allocation of [initStringInfo] (lib/stringinfo.c). *)
Definition StringInfo_initial_size : Z := 1024.

(** ** Characters and C strings *)

Definition NUL : ascii := "000"%char.

(** Value of a [char] (signed on the host platform). *)
Definition char_val (c : ascii) : Z :=
  let n := Z.of_N (N_of_ascii c) in
  if 128 <=? n then n - 256 else n.

Definition is_nul (c : ascii) : bool := char_val c =? 0.

(** The three ranges tested in the body of [isalphanum]'s loop. *)
Definition alnum_char (c : ascii) : bool :=
  ((char_val "0"%char <=? char_val c) && (char_val c <=? char_val "9"%char))
  || ((char_val "A"%char <=? char_val c) && (char_val c <=? char_val "Z"%char))
  || ((char_val "a"%char <=? char_val c) && (char_val c <=? char_val "z"%char)).

(** The bytes of a C string: everything before the first NUL. *)
Fixpoint c_str (s : string) : string :=
  match s with
  | EmptyString => EmptyString
  | String c rest => if is_nul c then EmptyString else String c (c_str rest)
  end.

Definition strlen (s : string) : Z := Z.of_nat (String.length (c_str s)).

(** [*str]: the byte under the pointer; the end of the Rocq string is the
    terminator. *)
Definition deref (str : string) : ascii :=
  match str with
  | EmptyString => NUL
  | String c _ => c
  end.

(** [str += 1]. *)
Definition advance (str : string) : string :=
  match str with
  | EmptyString => EmptyString
  | String _ rest => rest
  end.

(** The do-while loop of [isalphanum], entered with [c = *str], [c <> 0]. *)
Fixpoint isalphanum_loop (c : ascii) (rest : string) : bool :=
  if alnum_char c then
    match rest with
    | EmptyString => true
    | String c' rest' => if is_nul c' then true else isalphanum_loop c' rest'
    end
  else false.

(** [static bool isalphanum(char *str)]. *)
Definition isalphanum (str : string) : bool :=
  let c := deref str in
  if is_nul c then false
  else isalphanum_loop c (advance str).

Fixpoint string_forallb (p : ascii -> bool) (s : string) : bool :=
  match s with
  | EmptyString => true
  | String c rest => p c && string_forallb p rest
  end.

Fixpoint repeat_char (c : ascii) (n : nat) : string :=
  match n with
  | O => EmptyString
  | S n' => String c (repeat_char c n')
  end.

(** ** [strtol(nptr, NULL, 10)], after ISO C 7.22.1.4 *)

(** [isspace] in the C locale. *)
Definition isspace (c : ascii) : bool :=
  let n := char_val c in
  (n =? 32) || ((9 <=? n) && (n <=? 13)).

Definition digit_val (c : ascii) : option Z :=
  let n := char_val c in
  if (48 <=? n) && (n <=? 57) then Some (n - 48) else None.

Fixpoint skip_space (s : string) : string :=
  match s with
  | String c rest => if isspace c then skip_space rest else s
  | EmptyString => EmptyString
  end.

(** Optional sign: [(negative, rest)]. *)
Definition take_sign (s : string) : bool * string :=
  match s with
  | String c rest =>
      if (char_val c =? 45) then (true, rest)
      else if (char_val c =? 43) then (false, rest)
      else (false, s)
  | EmptyString => (false, s)
  end.

(** Longest digit prefix: its value (base 10) and its number of digits. *)
Fixpoint digits (acc : Z) (count : nat) (s : string) : Z * nat :=
  match s with
  | String c rest =>
      match digit_val c with
      | Some d => digits (10 * acc + d) (S count) rest
      | None => (acc, count)
      end
  | EmptyString => (acc, count)
  end.

(** The subject sequence of the buffer: [None] when it has no digit,
    the exact integer it denotes otherwise. *)
Definition subject_value (nptr : string) : option Z :=
  let (neg, s) := take_sign (skip_space nptr) in
  match digits 0 O s with
  | (_, O) => None
  | (v, S _) => Some (if neg then - v else v)
  end.

(** Result of the conversion: the returned [long] and the value stored in
    [errno], if any.  ISO C stores nothing when no conversion is performed;
    POSIX lets an implementation store [EINVAL] then (the BSD libc does,
    glibc and musl do not): [einval_on_noconv] selects that behaviour. *)
Definition strtol_result (einval_on_noconv : bool) (nptr : string)
  : Z * option Z :=
  match subject_value nptr with
  | None => (0, if einval_on_noconv then Some EINVAL else None)
  | Some v =>
      if LONG_MAX <? v then (LONG_MAX, Some ERANGE)
      else if v <? LONG_MIN then (LONG_MIN, Some ERANGE)
      else (v, None)
  end.

(** ** The process state *)

Definition EBADF : Z := 9.

Inductive buffer := PathBuf | LimitBuf.

(** Calls into the host and the operating system, in program order. *)
Inductive call :=
| InitStringInfo (b : buffer)
| AppendStringInfoString (b : buffer) (s : string)
| Open (path : string)
| Read (fd : Z) (count : Z)
| Close (fd : Z)
| Pfree (b : buffer)
| AppendStringInfo (b : buffer) (s : string)
| AllocateFile (path : string)
| Fscanf (fd : Z)
| FreeFile (fd : Z)
| PrevHook (user : string) (status : Z).

(** What the next calls of [read] do before the file answers in full:
    fail with an error number, or deliver at most [k] bytes. *)
Inductive read_event :=
| ReadFails (e : positive)
| ReadShort (k : positive).

Record world := {
  errno : Z;                                (* the errno slot *)
  connlimitDirectory : option string;       (* GUC connlimit.directory; None is NULL *)
  get_role_oid : string -> Z;               (* get_role_oid(name, true) *)
  CountUserBackends : Z -> nat;             (* backends of a role, this one excluded *)
  fs : string -> positive + string;         (* open(path): error number or file content *)
  open_eagain : nat;                        (* opens that first fail with EAGAIN *)
  read_script : list read_event;            (* transient behaviour of read *)
  free_fd : Z;                              (* descriptor the next open returns *)
  opened : option (Z * string);             (* open descriptor and its unread bytes *)
  strtol_einval : bool;                     (* libc stores EINVAL when strtol converts nothing *)
  calls : list call                         (* calls made so far *)
}.

Definition set_errno (e : Z) (w : world) : world :=
  {| errno := e; connlimitDirectory := connlimitDirectory w;
     get_role_oid := get_role_oid w; CountUserBackends := CountUserBackends w;
     fs := fs w; open_eagain := open_eagain w; read_script := read_script w;
     free_fd := free_fd w; opened := opened w;
     strtol_einval := strtol_einval w; calls := calls w |}.

Definition set_directory (d : option string) (w : world) : world :=
  {| errno := errno w; connlimitDirectory := d;
     get_role_oid := get_role_oid w; CountUserBackends := CountUserBackends w;
     fs := fs w; open_eagain := open_eagain w; read_script := read_script w;
     free_fd := free_fd w; opened := opened w;
     strtol_einval := strtol_einval w; calls := calls w |}.

Definition set_open_eagain (n : nat) (w : world) : world :=
  {| errno := errno w; connlimitDirectory := connlimitDirectory w;
     get_role_oid := get_role_oid w; CountUserBackends := CountUserBackends w;
     fs := fs w; open_eagain := n; read_script := read_script w;
     free_fd := free_fd w; opened := opened w;
     strtol_einval := strtol_einval w; calls := calls w |}.

Definition set_read_script (l : list read_event) (w : world) : world :=
  {| errno := errno w; connlimitDirectory := connlimitDirectory w;
     get_role_oid := get_role_oid w; CountUserBackends := CountUserBackends w;
     fs := fs w; open_eagain := open_eagain w; read_script := l;
     free_fd := free_fd w; opened := opened w;
     strtol_einval := strtol_einval w; calls := calls w |}.

Definition set_opened (o : option (Z * string)) (w : world) : world :=
  {| errno := errno w; connlimitDirectory := connlimitDirectory w;
     get_role_oid := get_role_oid w; CountUserBackends := CountUserBackends w;
     fs := fs w; open_eagain := open_eagain w; read_script := read_script w;
     free_fd := free_fd w; opened := o;
     strtol_einval := strtol_einval w; calls := calls w |}.

Definition log (c : call) (w : world) : world :=
  {| errno := errno w; connlimitDirectory := connlimitDirectory w;
     get_role_oid := get_role_oid w; CountUserBackends := CountUserBackends w;
     fs := fs w; open_eagain := open_eagain w; read_script := read_script w;
     free_fd := free_fd w; opened := opened w;
     strtol_einval := strtol_einval w; calls := calls w ++ [c] |}.

Definition OidIsValid (oid : Z) : bool := negb (oid =? InvalidOid).

(** ** System calls *)

(** [open(path, O_RDONLY)]: returns the descriptor, or -1 with [errno] set. *)
Definition sys_open (path : string) (w : world) : Z * world :=
  let w := log (Open path) w in
  match open_eagain w with
  | S n => (-1, set_errno EAGAIN (set_open_eagain n w))
  | O =>
      match fs w path with
      | inl e => (-1, set_errno (Z.pos e) w)
      | inr content => (free_fd w, set_opened (Some (free_fd w, content)) w)
      end
  end.

Definition take_bytes (n : nat) (s : string) : string := substring 0 n s.
Definition drop_bytes (n : nat) (s : string) : string :=
  substring n (String.length s - n) s.

(** A successful [read] of at most [count] bytes from descriptor [fd]. *)
Definition deliver (fd count : Z) (w : world) : Z * string * world :=
  match opened w with
  | Some (fd', unread) =>
      if fd' =? fd then
        let n := Nat.min (Z.to_nat count) (String.length unread) in
        (Z.of_nat n, take_bytes n unread,
         set_opened (Some (fd', drop_bytes n unread)) w)
      else (-1, EmptyString, set_errno EBADF w)
  | None => (-1, EmptyString, set_errno EBADF w)
  end.

(** [read(fd, buf, count)]: the byte count (or -1), the bytes stored at
    [buf], and the new state. *)
Definition sys_read (fd count : Z) (w : world) : Z * string * world :=
  let w := log (Read fd count) w in
  match read_script w with
  | ReadFails e :: rest => (-1, EmptyString, set_errno (Z.pos e) (set_read_script rest w))
  | ReadShort k :: rest => deliver fd (Z.min count (Z.pos k)) (set_read_script rest w)
  | [] => deliver fd count w
  end.

(** [close(fd)]. *)
Definition sys_close (fd : Z) (w : world) : world :=
  let w := log (Close fd) w in
  match opened w with
  | Some (fd', _) => if fd' =? fd then set_opened None w else set_errno EBADF w
  | None => set_errno EBADF w
  end.

(** [strtol(nptr, NULL, 10)] on the process state. *)
Definition strtol (nptr : string) (w : world) : Z * world :=
  match strtol_result (strtol_einval w) nptr with
  | (v, Some e) => (v, set_errno e w)
  | (v, None) => (v, w)
  end.

(** ** StringInfo *)

Record StringInfoData := {
  data : string;
  len : Z;
  maxlen : Z
}.

Definition initStringInfo : StringInfoData :=
  {| data := EmptyString; len := 0; maxlen := StringInfo_initial_size |}.

(** [appendStringInfoString(&pathBuf, s)]: the path buffer grows as needed,
    only its bytes are kept. *)
Definition appendStringInfoString (b : buffer) (s : string) (buf : string)
  (w : world) : string * world :=
  (buf ++ c_str s, log (AppendStringInfoString b (c_str s)) w).

(** ** Outcome of the authentication hook *)

Definition ERRCODE_TOO_MANY_CONNECTIONS : string := "53300".

Inductive outcome :=
| Returned (w : world)                               (* the function returns *)
| Fatal (sqlstate : string) (message : string) (w : world)  (* ereport(FATAL): the backend exits *)
| Diverges.                                          (* a retry loop never ends *)

Definition double_quote : ascii := "034"%char.

Definition too_many_connections_message (rolname : string) : string :=
  "too many connections for role " ++
  String double_quote (c_str rolname ++ String double_quote EmptyString).

(** ** [enforce_limit] *)

(** [do { errno = 0; fd = open(pathBuf.data, O_RDONLY); } while (errno == EAGAIN);]
    [None]: the loop did not end within [fuel] iterations. *)
Fixpoint open_retry (fuel : nat) (path : string) (w : world)
  : option (Z * world) :=
  match fuel with
  | O => None
  | S fuel' =>
      let (fd, w1) := sys_open path (set_errno 0 w) in
      if errno w1 =? EAGAIN then open_retry fuel' path w1
      else Some (fd, w1)
  end.

(** The read loop:
    [do { errno = 0; n = read(fd, &data[len], remaining - len);
          if (n > 0) len += n; } while (errno == EAGAIN && len < remaining);] *)
Fixpoint read_retry (fuel : nat) (fd remaining : Z) (limitBuf : StringInfoData)
  (w : world) : option (StringInfoData * world) :=
  match fuel with
  | O => None
  | S fuel' =>
      let '(n, bytes, w1) :=
        sys_read fd (remaining - len limitBuf) (set_errno 0 w) in
      let limitBuf1 :=
        if 0 <? n
        then {| data := data limitBuf ++ bytes;
                len := len limitBuf + n;
                maxlen := maxlen limitBuf |}
        else limitBuf in
      if (errno w1 =? EAGAIN) && (len limitBuf1 <? remaining)
      then read_retry fuel' fd remaining limitBuf1 w1
      else Some (limitBuf1, w1)
  end.

(** Iterations after which the retry loops have used up every transient
    failure the state holds. *)
Definition open_fuel (w : world) : nat := S (open_eagain w).
Definition read_fuel (w : world) : nat := S (List.length (read_script w)).

(** Label [cleanup]. *)
Definition cleanup (save_errno : Z) (w : world) : outcome :=
  Returned (set_errno save_errno (log (Pfree PathBuf) w)).

(** Label [cleanup_opened], falling through to [cleanup]. *)
Definition cleanup_opened (fd save_errno : Z) (w : world) : outcome :=
  cleanup save_errno (sys_close fd (log (Pfree LimitBuf) w)).

(** [limitBuf.data[limitBuf.len] = '\0'; limitBuf.len += 1;] *)
Definition terminate (limitBuf : StringInfoData) : StringInfoData :=
  {| data := data limitBuf ++ String NUL EmptyString;
     len := len limitBuf + 1;
     maxlen := maxlen limitBuf |}.

(** The path probed for a role: directory, "/", role name. *)
Definition build_path (dir rolname : string) (w : world) : string * world :=
  let w := log (InitStringInfo PathBuf) w in
  let pathBuf := EmptyString in
  let (pathBuf, w) := appendStringInfoString PathBuf dir pathBuf w in
  let (pathBuf, w) := appendStringInfoString PathBuf "/" pathBuf w in
  appendStringInfoString PathBuf rolname pathBuf w.

(** The quota test and everything after it. *)
Definition check_quota (rolname : string) (roleid fd save_errno limit : Z)
  (w : world) : outcome :=
  if Z.of_nat (CountUserBackends w roleid) >=? limit then
    Fatal ERRCODE_TOO_MANY_CONNECTIONS
          (too_many_connections_message rolname)
          (set_errno save_errno w)
  else cleanup_opened fd save_errno w.

(** From the NUL terminator to the end of the function. *)
Definition parse_and_check (rolname : string) (roleid fd save_errno : Z)
  (limitBuf : StringInfoData) (w : world) : outcome :=
  let limitBuf := terminate limitBuf in
  let (limit, w) := strtol (data limitBuf) w in
  if negb (errno w =? 0) then cleanup_opened fd save_errno w
  else check_quota rolname roleid fd save_errno limit w.

(** From [initStringInfo(&limitBuf)] to the end of the function. *)
Definition read_and_check (rolname : string) (roleid fd save_errno : Z)
  (w : world) : outcome :=
  let w := log (InitStringInfo LimitBuf) w in
  let limitBuf := initStringInfo in
  let remaining := maxlen limitBuf - sizeof_char_constant in
  match read_retry (read_fuel w) fd remaining limitBuf w with
  | None => Diverges
  | Some (limitBuf, w) =>
      if negb (errno w =? 0) || (len limitBuf =? maxlen limitBuf)
      then cleanup_opened fd save_errno w
      else parse_and_check rolname roleid fd save_errno limitBuf w
  end.

(** [static void enforce_limit(char *rolname)]. *)
Definition enforce_limit (rolname : string) (w : world) : outcome :=
  match connlimitDirectory w with
  | None => Returned w
  | Some dir =>
      let roleid := get_role_oid w rolname in
      if negb (OidIsValid roleid) then Returned w
      else if negb (isalphanum rolname) then Returned w
      else
        let (path, w) := build_path dir rolname w in
        let save_errno := errno w in
        match open_retry (open_fuel w) path w with
        | None => Diverges
        | Some (fd, w) =>
            if negb (errno w =? 0) then cleanup save_errno w
            else read_and_check rolname roleid fd save_errno w
        end
  end.

(** ** The hook and its installation *)

Record Port := { user_name : string }.

(** [ClientAuthentication_hook_type]. *)
Definition handler := Port -> Z -> world -> outcome.

(** [static void client_auth_hook(Port *port, int status)], with the
    module's [prev_ClientAuthentication_hook] as [prev]. *)
Definition client_auth_hook (prev : option handler) (port : Port)
  (status : Z) (w : world) : outcome :=
  let checked :=
    if status =? STATUS_OK then enforce_limit (user_name port) w
    else Returned w in
  match checked with
  | Returned w1 =>
      match prev with
      | Some h => h port status w1
      | None => Returned w1
      end
  | Fatal c m w1 => Fatal c m w1
  | Diverges => Diverges
  end.

(** A previous handler that only records that it ran. *)
Definition recording_handler : handler :=
  fun port status w => Returned (log (PrevHook (user_name port) status) w).

Definition is_prev_hook (c : call) : bool :=
  match c with
  | PrevHook _ _ => true
  | _ => false
  end.

Definition final_calls (o : outcome) : list call :=
  match o with
  | Returned w => calls w
  | Fatal _ _ w => calls w
  | Diverges => []
  end.

(** Number of runs of the previous handler recorded in an outcome. *)
Definition prev_hook_runs (o : outcome) : nat :=
  List.length (filter is_prev_hook (final_calls o)).

(** The hook variables: the host's [ClientAuthentication_hook] and the
    module's saved [prev_ClientAuthentication_hook]. *)
Record hooks := {
  ClientAuthentication_hook : option handler;
  prev_ClientAuthentication_hook : option handler
}.

(** [DefineCustomStringVariable(name, ..., bootValue, &var, ...)]: the
    variable holds the configured setting, or a copy of the boot value. *)
Definition DefineCustomStringVariable (bootValue : string)
  (configured : option string) : option string :=
  match configured with
  | Some v => Some v
  | None => Some bootValue
  end.

(** [void _PG_init(void)]; [configured] is the setting of
    connlimit.directory in the configuration file, if any. *)
Definition _PG_init (configured : option string) (h : hooks) (w : world)
  : hooks * world :=
  let w := set_directory (DefineCustomStringVariable "" configured) w in
  ({| prev_ClientAuthentication_hook := ClientAuthentication_hook h;
      ClientAuthentication_hook :=
        Some (client_auth_hook (ClientAuthentication_hook h)) |}, w).

(** ** The stdio revision

    The second source file holds the same module with [enforce_limit]
    written over stdio: the name is checked with [strspn], the file is
    opened with [AllocateFile] and the limit is scanned with [fscanf], and
    the hook calls the previous handler before the check. *)

Module Stdio.

Definition EOF : Z := -1.

Definition accept_set : string := "abcdefghijklmnopqrstuvwxyz0123456789_".

Fixpoint mem_char (c : ascii) (s : string) : bool :=
  match s with
  | EmptyString => false
  | String c' rest => Ascii.eqb c c' || mem_char c rest
  end.

(** [strspn(s, accept)]. *)
Fixpoint strspn (s accept : string) : Z :=
  match s with
  | EmptyString => 0
  | String c rest =>
      if is_nul c then 0
      else if mem_char c (c_str accept) then 1 + strspn rest accept
      else 0
  end.

(** Conversion of a [long] to [int]. *)
Definition to_int (v : Z) : Z :=
  let m := v mod 4294967296 in
  if 2147483648 <=? m then m - 4294967296 else m.

(** The bytes a stream delivers: what successive reads return, up to
    the first read that fails. *)
Fixpoint stream_bytes (script : list read_event) (content : string) : string :=
  match script with
  | [] => content
  | ReadFails _ :: _ => EmptyString
  | ReadShort k :: rest =>
      take_bytes (Pos.to_nat k) content
      ++ stream_bytes rest (drop_bytes (Pos.to_nat k) content)
  end.

(** [fscanf(fp, "%d", &limit)] on the bytes of the stream: the return
    value and the stored [int].  Input that ends before any byte other
    than white space gives EOF, input without digits gives 0.  For a
    value out of range ISO C leaves the stored value open; glibc stores
    the result of [strtol] converted to [int]. *)
Definition fscanf_result (stream : string) : Z * option Z :=
  match skip_space stream with
  | EmptyString => (EOF, None)
  | s =>
      match subject_value s with
      | None => (0, None)
      | Some _ => (1, Some (to_int (fst (strtol_result false s))))
      end
  end.

(** [AllocateFile(path, "r")]: [None] is NULL. *)
Definition AllocateFile_r (path : string) (w : world) : option Z * world :=
  let w := log (AllocateFile path) w in
  match open_eagain w with
  | S n => (None, set_errno EAGAIN (set_open_eagain n w))
  | O =>
      match fs w path with
      | inl e => (None, set_errno (Z.pos e) w)
      | inr content =>
          (Some (free_fd w), set_opened (Some (free_fd w, content)) w)
      end
  end.

(** [fscanf] on the open stream. *)
Definition fscanf_d (fp : Z) (w : world) : Z * option Z * world :=
  let w := log (Fscanf fp) w in
  match opened w with
  | Some (fd, unread) =>
      if fd =? fp then
        (fscanf_result (stream_bytes (read_script w) unread),
         set_read_script [] w)
      else ((EOF, None), set_errno EBADF w)
  | None => ((EOF, None), set_errno EBADF w)
  end.

(** [FreeFile(fp)]. *)
Definition FreeFile_ (fp : Z) (w : world) : world :=
  set_opened None (log (FreeFile fp) w).

Definition cleanup (save_errno : Z) (w : world) : outcome :=
  Returned (set_errno save_errno (log (Pfree PathBuf) w)).

Definition cleanup_opened (fp save_errno : Z) (w : world) : outcome :=
  cleanup save_errno (FreeFile_ fp w).

(** [static void enforce_limit(char *rolname)] of the stdio revision. *)
Definition enforce_limit (rolname : string) (w : world) : outcome :=
  match connlimitDirectory w with
  | None => Returned w
  | Some dir =>
      let roleid := get_role_oid w rolname in
      if negb (OidIsValid roleid) then Returned w
      else if negb (strspn rolname accept_set =? strlen rolname)
      then Returned w
      else
        let w := log (InitStringInfo PathBuf) w in
        let path := c_str dir ++ "/" ++ c_str rolname in
        let w := log (AppendStringInfo PathBuf path) w in
        let save_errno := errno w in
        let w := set_errno 0 w in
        match AllocateFile_r path w with
        | (None, w) => cleanup save_errno w
        | (Some fp, w) =>
            match fscanf_d fp w with
            | (ret, stored, w) =>
                if negb (ret =? 1) then cleanup_opened fp save_errno w
                else
                  let limit := match stored with Some v => v | None => 0 end in
                  if Z.of_nat (CountUserBackends w roleid) >=? limit then
                    Fatal ERRCODE_TOO_MANY_CONNECTIONS
                          (too_many_connections_message rolname)
                          (set_errno save_errno w)
                  else cleanup_opened fp save_errno w
            end
        end
  end.

(** [static void client_auth_hook(Port *port, int status)] of the stdio
    revision: the previous handler first, then the check. *)
Definition client_auth_hook (prev : option handler) (port : Port)
  (status : Z) (w : world) : outcome :=
  let chained :=
    match prev with
    | Some h => h port status w
    | None => Returned w
    end in
  match chained with
  | Returned w1 =>
      if status =? STATUS_OK then enforce_limit (user_name port) w1
      else Returned w1
  | Fatal c m w1 => Fatal c m w1
  | Diverges => Diverges
  end.

End Stdio.

(** ** Views used to state the properties *)

Definition admits (o : outcome) : bool :=
  match o with Returned _ => true | _ => false end.

Definition rejects (o : outcome) : bool :=
  match o with
  | Fatal c _ _ => String.eqb c ERRCODE_TOO_MANY_CONNECTIONS
  | _ => false
  end.

(** The bytes the read stage hands to the parser, when every stage before
    the parser succeeds: configured directory, known role, alphanumeric
    name, file opened, file read. *)
Definition limit_source_content (rolname : string) (w : world)
  : option string :=
  match connlimitDirectory w with
  | None => None
  | Some dir =>
      if OidIsValid (get_role_oid w rolname) && isalphanum rolname then
        let (path, w0) := build_path dir rolname w in
        match open_retry (open_fuel w0) path w0 with
        | None => None
        | Some (fd, w1) =>
            if errno w1 =? 0 then
              let w2 := log (InitStringInfo LimitBuf) w1 in
              match read_retry (read_fuel w2) fd
                      (StringInfo_initial_size - sizeof_char_constant)
                      initStringInfo w2 with
              | None => None
              | Some (limitBuf, w3) =>
                  if (errno w3 =? 0) && negb (len limitBuf =? maxlen limitBuf)
                  then Some (data limitBuf)
                  else None
              end
            else None
        end
      else None
  end.

(** A state in which role [rolname] has OID 16384 and [count] other
    backends, connlimit.directory is [dir], and the only file is
    [path] with content [content]. *)
Definition sample_world (dir : option string) (path content : string)
  (count : nat) (einval : bool) : world :=
  {| errno := 0;
     connlimitDirectory := dir;
     get_role_oid := fun name => if String.eqb name "arolename" then 16384 else InvalidOid;
     CountUserBackends := fun oid => if oid =? 16384 then count else O;
     fs := fun p => if String.eqb p path then inr content else inl 2%positive;
     open_eagain := O;
     read_script := [];
     free_fd := 3;
     opened := None;
     strtol_einval := einval;
     calls := [] |}.

(** The validator as the specification words it: a name is accepted when it
    is not empty and each of its bytes is one of [A-Za-z0-9]. *)
Definition letter_or_digit (c : ascii) : bool :=
  existsb (Ascii.eqb c)
    (list_ascii_of_string
       "ABCDEFGHIJKLMNOPQRSTUVWXYZabcdefghijklmnopqrstuvwxyz0123456789").

Definition valid_identifier (name : string) : bool :=
  negb (String.eqb name EmptyString) && string_forallb letter_or_digit name.

(** [c] occurs in [s]. *)
Fixpoint occurs (c : ascii) (s : string) : Prop :=
  match s with
  | EmptyString => False
  | String c' rest => c = c' \/ occurs c rest
  end.

(** [w'] is [w] after some calls made by this module: the environment
    (configuration, catalog, backend counts, files, libc) is the same and the
    log grew by calls none of which is a run of the previous handler. *)
Definition same_env (w w' : world) : Prop :=
  connlimitDirectory w' = connlimitDirectory w /\
  get_role_oid w' = get_role_oid w /\
  CountUserBackends w' = CountUserBackends w /\
  fs w' = fs w /\
  strtol_einval w' = strtol_einval w /\
  exists l, calls w' = (calls w ++ l)%list /\ filter is_prev_hook l = [].

(** The path [enforce_limit] probes. *)
Definition limit_path (dir rolname : string) : string :=
  c_str dir ++ "/" ++ c_str rolname.

(** The calls that build the path. *)
Definition path_calls (dir rolname : string) : list call :=
  [InitStringInfo PathBuf;
   AppendStringInfoString PathBuf (c_str dir);
   AppendStringInfoString PathBuf "/";
   AppendStringInfoString PathBuf (c_str rolname)].

(** The state an outcome leaves has [e] in the errno slot. *)
Definition leaves_errno (e : Z) (o : outcome) : Prop :=
  match o with
  | Returned w' => errno w' = e
  | Fatal _ _ w' => errno w' = e
  | Diverges => True
  end.

(** The state an outcome leaves is in the environment of [w]. *)
Definition leaves_env (w : world) (o : outcome) : Prop :=
  match o with
  | Returned w' => same_env w w'
  | Fatal _ _ w' => same_env w w'
  | Diverges => True
  end.

(** Runs of the previous handler recorded in a state. *)
Definition prev_hook_runs_in (w : world) : nat :=
  List.length (filter is_prev_hook (calls w)).

(** ** Views used for the read stage and the resources *)

(** What the read loop ends on, read off the script of transient events:
    the error number of the first failure that is not EAGAIN, or the cap of
    the first read that succeeds ([None]: the read is served in full). *)
Fixpoint first_read (script : list read_event) : Z + option positive :=
  match script with
  | [] => inr None
  | ReadFails e :: rest =>
      if Z.pos e =? EAGAIN then first_read rest else inl (Z.pos e)
  | ReadShort k :: _ => inr (Some k)
  end.

(** Bytes a read of [count] bytes capped by [cap] stores from [content]. *)
Definition read_size (count : Z) (cap : option positive) (content : string)
  : nat :=
  match cap with
  | None => Nat.min (Z.to_nat count) (String.length content)
  | Some k => Nat.min (Z.to_nat (Z.min count (Z.pos k))) (String.length content)
  end.

(** The log of [w'] is the log of [w] followed by calls that satisfy [P]. *)
Definition grows (P : call -> bool) (w w' : world) : Prop :=
  exists l, calls w' = (calls w ++ l)%list /\ forallb P l = true.

Definition buffer_eqb (a b : buffer) : bool :=
  match a, b with
  | PathBuf, PathBuf => true
  | LimitBuf, LimitBuf => true
  | _, _ => false
  end.

(** Allocations of buffer [b] not yet released, over a log. *)
Fixpoint held (b : buffer) (l : list call) : Z :=
  match l with
  | [] => 0
  | InitStringInfo b' :: rest =>
      (if buffer_eqb b b' then 1 else 0) + held b rest
  | Pfree b' :: rest =>
      held b rest - (if buffer_eqb b b' then 1 else 0)
  | _ :: rest => held b rest
  end.

Definition not_alloc (c : call) : bool :=
  match c with
  | InitStringInfo _ => false
  | Pfree _ => false
  | _ => true
  end.

(** Calls that are not an [open] of a path other than [path]. *)
Definition opens_only (path : string) (c : call) : bool :=
  match c with
  | Open q => String.eqb q path
  | _ => true
  end.

(** Paths passed to [open] in a log. *)
Fixpoint opened_paths (l : list call) : list string :=
  match l with
  | [] => []
  | Open q :: rest => q :: opened_paths rest
  | _ :: rest => opened_paths rest
  end.

(** A [read] on descriptor [fd] that asks for between 0 and [bound] bytes. *)
Definition bounded_read (fd bound : Z) (c : call) : bool :=
  match c with
  | Read fd' count => (fd' =? fd) && (0 <=? count) && (count <=? bound)
  | _ => false
  end.

(** An outcome with the errno slot of its state cleared. *)
Definition forget_errno (o : outcome) : outcome :=
  match o with
  | Returned w => Returned (set_errno 0 w)
  | Fatal c m w => Fatal c m (set_errno 0 w)
  | Diverges => Diverges
  end.

(** ** Decimal numerals, as an operator writes them into a limit file *)





(** * Properties *)

(** ** The identifier validator *)

Lemma alnum_char_class (c : ascii) : alnum_char c = letter_or_digit c.
Proof.
  destruct c as [b0 b1 b2 b3 b4 b5 b6 b7].
  destruct b0, b1, b2, b3, b4, b5, b6, b7; reflexivity.
Qed.

Lemma nul_not_alnum (c : ascii) : is_nul c = true -> alnum_char c = false.
Proof.
  destruct c as [b0 b1 b2 b3 b4 b5 b6 b7].
  destruct b0, b1, b2, b3, b4, b5, b6, b7; simpl; intro H;
    solve [reflexivity | discriminate H].
Qed.

Lemma c_str_no_nul (s : string) :
  string_forallb (fun c => negb (is_nul c)) (c_str s) = true.
Proof.
  induction s as [|c rest IH]; simpl; [reflexivity|].
  destruct (is_nul c) eqn:E; simpl; [reflexivity|].
  now rewrite E, IH.
Qed.

Lemma c_str_id (s : string) :
  string_forallb (fun c => negb (is_nul c)) s = true -> c_str s = s.
Proof.
  induction s as [|c rest IH]; simpl; [reflexivity|].
  destruct (is_nul c); simpl; [discriminate|].
  intro H. now rewrite IH.
Qed.

Lemma c_str_idem (s : string) : c_str (c_str s) = c_str s.
Proof. apply c_str_id, c_str_no_nul. Qed.

(** The loop accepts exactly when the byte it holds and the bytes up to the
    terminator are all alphanumeric. *)
Lemma isalphanum_loop_spec (rest : string) :
  forall c, isalphanum_loop c rest
            = alnum_char c && string_forallb alnum_char (c_str rest).
Proof.
  induction rest as [|c' rest' IH]; intro c; simpl.
  - destruct (alnum_char c); reflexivity.
  - destruct (alnum_char c); simpl; [|reflexivity].
    destruct (is_nul c') eqn:E; simpl; [reflexivity|apply IH].
Qed.

Lemma isalphanum_spec (str : string) :
  isalphanum str = valid_identifier (c_str str).
Proof.
  unfold isalphanum, valid_identifier.
  destruct str as [|c rest]; simpl; [reflexivity|].
  destruct (is_nul c) eqn:E; simpl; [reflexivity|].
  rewrite isalphanum_loop_spec, alnum_char_class. f_equal.
  clear. induction (c_str rest) as [|d r IH]; simpl; [reflexivity|].
  now rewrite alnum_char_class, IH.
Qed.

Lemma forallb_false_occurs (p : ascii -> bool) (s : string) :
  string_forallb p s = false <-> exists c, occurs c s /\ p c = false.
Proof.
  induction s as [|c rest IH]; simpl.
  - split; [discriminate|]. intros [c [[] _]].
  - rewrite andb_false_iff, IH. split.
    + intros [H | [d [Hd Hp]]].
      * exists c. auto.
      * exists d. auto.
    + intros [d [[-> | Hd] Hp]]; [left; exact Hp|].
      right. exists d. auto.
Qed.

(** An invalid or unknown role name leaves the state untouched. *)
Lemma enforce_limit_invalid_name (rolname : string) (w : world) :
  isalphanum rolname = false -> enforce_limit rolname w = Returned w.
Proof.
  intro H. unfold enforce_limit.
  destruct (connlimitDirectory w); [|reflexivity].
  destruct (OidIsValid (get_role_oid w rolname)); simpl; [|reflexivity].
  now rewrite H.
Qed.

(** C6: the validator returns false exactly on the names that are empty or
    hold a byte outside [A-Za-z0-9]; when it returns false, [enforce_limit]
    returns with the state unchanged: no buffer is allocated, no path is
    built from the name and no file is opened. *)
Theorem isalphanum_rejects_exactly_unsafe_names (name : string) :
  (isalphanum name = false <->
   c_str name = EmptyString \/
   exists c, occurs c (c_str name) /\ letter_or_digit c = false) /\
  (isalphanum name = false ->
   forall w, enforce_limit name w = Returned w /\
             final_calls (enforce_limit name w) = calls w).
Proof.
  split.
  - rewrite isalphanum_spec. unfold valid_identifier.
    rewrite andb_false_iff, negb_false_iff, String.eqb_eq, forallb_false_occurs.
    reflexivity.
  - intros H w. rewrite (enforce_limit_invalid_name _ _ H). auto.
Qed.

Lemma isalphanum_rejects_exactly_unsafe_names_witness :
  isalphanum "../../etc/passwd" = false /\
  forall w, enforce_limit "../../etc/passwd" w = Returned w /\
            final_calls (enforce_limit "../../etc/passwd" w) = calls w.
Proof.
  split; [reflexivity|].
  apply (proj2 (isalphanum_rejects_exactly_unsafe_names "../../etc/passwd")).
  reflexivity.
Defined.

(** ** Frame facts: what the steps leave alone *)

Lemma same_env_refl (w : world) : same_env w w.
Proof.
  unfold same_env. repeat split; try reflexivity.
  exists []. now rewrite app_nil_r.
Qed.

Lemma same_env_trans (w1 w2 w3 : world) :
  same_env w1 w2 -> same_env w2 w3 -> same_env w1 w3.
Proof.
  intros (Hd & Hr & Hc & Hf & Hs & l & Hl & Hp)
         (Hd' & Hr' & Hc' & Hf' & Hs' & l' & Hl' & Hp').
  unfold same_env. repeat split; try congruence.
  exists (l ++ l')%list. split.
  - now rewrite Hl', Hl, app_assoc.
  - now rewrite filter_app, Hp, Hp'.
Qed.

Ltac same_env_unchanged :=
  unfold same_env; simpl; repeat split; try reflexivity;
  exists []; split; [now rewrite app_nil_r|reflexivity].

Lemma same_env_set_errno (e : Z) (w : world) : same_env w (set_errno e w).
Proof. same_env_unchanged. Qed.

Lemma same_env_set_opened (o : option (Z * string)) (w : world) :
  same_env w (set_opened o w).
Proof. same_env_unchanged. Qed.

Lemma same_env_set_read_script (l : list read_event) (w : world) :
  same_env w (set_read_script l w).
Proof. same_env_unchanged. Qed.

Lemma same_env_set_open_eagain (n : nat) (w : world) :
  same_env w (set_open_eagain n w).
Proof. same_env_unchanged. Qed.

Lemma same_env_log (c : call) (w : world) :
  is_prev_hook c = false -> same_env w (log c w).
Proof.
  intro H. unfold same_env. repeat split; try reflexivity.
  exists [c]. split; [reflexivity|]. simpl. now rewrite H.
Qed.

Ltac frame :=
  repeat match goal with
         | |- same_env ?w ?w => apply same_env_refl
         | |- same_env ?w (set_errno _ ?w') =>
             apply (same_env_trans w w' _); [|apply same_env_set_errno]
         | |- same_env ?w (set_opened _ ?w') =>
             apply (same_env_trans w w' _); [|apply same_env_set_opened]
         | |- same_env ?w (set_read_script _ ?w') =>
             apply (same_env_trans w w' _); [|apply same_env_set_read_script]
         | |- same_env ?w (set_open_eagain _ ?w') =>
             apply (same_env_trans w w' _); [|apply same_env_set_open_eagain]
         | |- same_env ?w (log _ ?w') =>
             apply (same_env_trans w w' _); [|apply same_env_log; reflexivity]
         end.

Lemma sys_open_frame (path : string) (w : world) :
  same_env w (snd (sys_open path w)).
Proof.
  unfold sys_open.
  destruct (open_eagain (log (Open path) w)); cbn [snd]; [|frame].
  destruct (fs (log (Open path) w) path); cbn [snd]; frame.
Qed.

Lemma deliver_frame (fd count : Z) (w : world) :
  same_env w (snd (deliver fd count w)).
Proof.
  unfold deliver. destruct (opened w) as [[fd' unread]|]; cbn [snd]; [|frame].
  destruct (fd' =? fd); cbn [snd]; frame.
Qed.

Lemma sys_read_frame (fd count : Z) (w : world) :
  same_env w (snd (sys_read fd count w)).
Proof.
  unfold sys_read.
  destruct (read_script (log (Read fd count) w)) as [|[e|k] rest]; cbn [snd].
  - eapply same_env_trans; [|apply deliver_frame]. frame.
  - frame.
  - eapply same_env_trans; [|apply deliver_frame]. frame.
Qed.

Lemma sys_close_frame (fd : Z) (w : world) : same_env w (sys_close fd w).
Proof.
  unfold sys_close.
  destruct (opened (log (Close fd) w)) as [[fd' unread]|]; [|frame].
  destruct (fd' =? fd); frame.
Qed.

Lemma strtol_frame (nptr : string) (w : world) :
  same_env w (snd (strtol nptr w)).
Proof.
  unfold strtol.
  destruct (strtol_result (strtol_einval w) nptr) as [v [e|]]; cbn [snd]; frame.
Qed.

Lemma open_retry_frame (fuel : nat) (path : string) :
  forall w fd w1,
    open_retry fuel path w = Some (fd, w1) -> same_env w w1.
Proof.
  induction fuel as [|fuel IH]; intros w fd w1; simpl; [discriminate|].
  pose proof (sys_open_frame path (set_errno 0 w)) as F.
  destruct (sys_open path (set_errno 0 w)) as [fd0 w0]; simpl in F.
  destruct (errno w0 =? EAGAIN).
  - intro H. apply IH in H. eapply same_env_trans; [exact F|exact H].
  - intro H. injection H as <- <-. exact F.
Qed.

Lemma read_retry_frame (fuel : nat) (fd remaining : Z) :
  forall buf w buf1 w1,
    read_retry fuel fd remaining buf w = Some (buf1, w1) -> same_env w w1.
Proof.
  induction fuel as [|fuel IH]; intros buf w buf1 w1; simpl; [discriminate|].
  pose proof (sys_read_frame fd (remaining - len buf) (set_errno 0 w)) as F.
  destruct (sys_read fd (remaining - len buf) (set_errno 0 w)) as [[n bytes] w0].
  simpl in F.
  match goal with |- context [if ?c then read_retry _ _ _ _ _ else _] =>
    destruct c end.
  - intro H. apply IH in H. eapply same_env_trans; [exact F|exact H].
  - intro H. injection H as <- <-. exact F.
Qed.

Lemma string_app_assoc (a b c : string) : (a ++ b) ++ c = a ++ (b ++ c).
Proof. induction a as [|x a IH]; simpl; [reflexivity|now rewrite IH]. Qed.

Lemma string_app_nil_r (a : string) : a ++ EmptyString = a.
Proof. induction a as [|x a IH]; simpl; [reflexivity|now rewrite IH]. Qed.

Lemma build_path_spec (dir rolname : string) (w : world) :
  build_path dir rolname w
  = (limit_path dir rolname,
     log (AppendStringInfoString PathBuf (c_str rolname))
       (log (AppendStringInfoString PathBuf "/")
          (log (AppendStringInfoString PathBuf (c_str dir))
             (log (InitStringInfo PathBuf) w)))).
Proof.
  unfold build_path, appendStringInfoString, limit_path.
  change (c_str "/") with "/". cbn [append].
  now rewrite string_app_assoc.
Qed.

Lemma build_path_frame (dir rolname : string) (w : world) :
  same_env w (snd (build_path dir rolname w)).
Proof. rewrite build_path_spec. cbn [snd]. frame. Qed.

Lemma build_path_errno (dir rolname : string) (w : world) :
  errno (snd (build_path dir rolname w)) = errno w.
Proof. reflexivity. Qed.

(** ** The errno slot *)

Lemma cleanup_leaves_errno (save_errno : Z) (w : world) :
  leaves_errno save_errno (cleanup save_errno w).
Proof. reflexivity. Qed.

Lemma cleanup_opened_leaves_errno (fd save_errno : Z) (w : world) :
  leaves_errno save_errno (cleanup_opened fd save_errno w).
Proof. reflexivity. Qed.

Lemma check_quota_leaves_errno (rolname : string)
  (roleid fd save_errno limit : Z) (w : world) :
  leaves_errno save_errno (check_quota rolname roleid fd save_errno limit w).
Proof.
  unfold check_quota.
  destruct (Z.of_nat (CountUserBackends w roleid) >=? limit); reflexivity.
Qed.

Lemma parse_and_check_leaves_errno (rolname : string)
  (roleid fd save_errno : Z) (limitBuf : StringInfoData) (w : world) :
  leaves_errno save_errno
    (parse_and_check rolname roleid fd save_errno limitBuf w).
Proof.
  unfold parse_and_check.
  destruct (strtol (data (terminate limitBuf)) w) as [limit w1].
  destruct (negb (errno w1 =? 0)).
  - apply cleanup_opened_leaves_errno.
  - apply check_quota_leaves_errno.
Qed.

Lemma read_and_check_leaves_errno (rolname : string)
  (roleid fd save_errno : Z) (w : world) :
  leaves_errno save_errno (read_and_check rolname roleid fd save_errno w).
Proof.
  unfold read_and_check.
  destruct (read_retry _ _ _ _ _) as [[limitBuf w1]|]; [|exact I].
  destruct (negb (errno w1 =? 0) || (len limitBuf =? maxlen limitBuf)).
  - apply cleanup_opened_leaves_errno.
  - apply parse_and_check_leaves_errno.
Qed.

Lemma enforce_limit_leaves_errno (rolname : string) (w : world) :
  leaves_errno (errno w) (enforce_limit rolname w).
Proof.
  unfold enforce_limit.
  destruct (connlimitDirectory w) as [dir|]; [|reflexivity].
  destruct (negb (OidIsValid (get_role_oid w rolname))); [reflexivity|].
  destruct (negb (isalphanum rolname)); [reflexivity|].
  pose proof (build_path_errno dir rolname w) as E.
  destruct (build_path dir rolname w) as [path w0]. cbn [snd] in E.
  rewrite E.
  destruct (open_retry (open_fuel w0) path w0) as [[fd w1]|]; [|exact I].
  destruct (negb (errno w1 =? 0)).
  - apply cleanup_leaves_errno.
  - apply read_and_check_leaves_errno.
Qed.

(** C9: on every path on which [enforce_limit] returns, the errno slot holds
    the value it held when the function was entered. *)
Theorem enforce_limit_restores_errno (rolname : string) (w w' : world) :
  enforce_limit rolname w = Returned w' -> errno w' = errno w.
Proof.
  intro H. pose proof (enforce_limit_leaves_errno rolname w) as L.
  now rewrite H in L.
Qed.

Lemma enforce_limit_restores_errno_witness :
  exists w',
    enforce_limit "arolename"
      (set_errno 4 (sample_world (Some "/etc/connlimit")
                      "/etc/connlimit/arolename" "10" 9 false))
    = Returned w' /\
    errno w' = 4.
Proof.
  set (w := set_errno 4 (sample_world (Some "/etc/connlimit")
                           "/etc/connlimit/arolename" "10" 9 false)).
  destruct (enforce_limit "arolename" w) as [w'| |] eqn:E;
    [|vm_compute in E; discriminate E..].
  exists w'. split; [reflexivity|].
  exact (enforce_limit_restores_errno "arolename" w w' E).
Defined.

(** ** The open stage *)

Lemma open_retry_eq (fuel : nat) (path : string) (w : world) :
  open_retry (S fuel) path w
  = let (fd, w1) := sys_open path (set_errno 0 w) in
    if errno w1 =? EAGAIN then open_retry fuel path w1 else Some (fd, w1).
Proof. reflexivity. Qed.

Lemma open_retry_steady (path : string) :
  forall n w,
    open_eagain w = n ->
    match fs w path with
    | inl e =>
        if Z.pos e =? EAGAIN then open_retry (S n) path w = None
        else exists w1,
            open_retry (S n) path w = Some (-1, w1) /\
            errno w1 = Z.pos e /\
            opened w1 = opened w /\
            read_script w1 = read_script w /\
            calls w1 = (calls w ++ repeat (Open path) (S n))%list
    | inr content =>
        exists w1,
          open_retry (S n) path w = Some (free_fd w, w1) /\
          errno w1 = 0 /\
          opened w1 = Some (free_fd w, content) /\
          read_script w1 = read_script w /\
          calls w1 = (calls w ++ repeat (Open path) (S n))%list
    end.
Proof.
  induction n as [|n IH]; intros w Hn.
  - rewrite open_retry_eq. unfold sys_open.
    change (open_eagain (log (Open path) (set_errno 0 w))) with (open_eagain w).
    change (fs (log (Open path) (set_errno 0 w)) path) with (fs w path).
    rewrite Hn.
    destruct (fs w path) as [e|content].
    + change (errno (set_errno (Z.pos e) (log (Open path) (set_errno 0 w))))
        with (Z.pos e).
      destruct (Z.pos e =? EAGAIN); [reflexivity|].
      eexists. split; [reflexivity|]. repeat split.
    + eexists. split; [reflexivity|]. repeat split.
  - set (w0 := set_errno EAGAIN
                  (set_open_eagain n (log (Open path) (set_errno 0 w)))).
    assert (E : open_retry (S (S n)) path w = open_retry (S n) path w0).
    { rewrite open_retry_eq. unfold sys_open.
      change (open_eagain (log (Open path) (set_errno 0 w)))
        with (open_eagain w).
      rewrite Hn. reflexivity. }
    rewrite E. specialize (IH w0 eq_refl).
    change (fs w0 path) with (fs w path) in IH.
    change (opened w0) with (opened w) in IH.
    change (read_script w0) with (read_script w) in IH.
    change (free_fd w0) with (free_fd w) in IH.
    change (calls w0) with (calls w ++ [Open path])%list in IH.
    destruct (fs w path) as [e|content].
    + destruct (Z.pos e =? EAGAIN); [exact IH|].
      destruct IH as (w1 & H1 & H2 & H3 & H4 & H5).
      exists w1. repeat split; try assumption.
      rewrite H5, <- app_assoc. reflexivity.
    + destruct IH as (w1 & H1 & H2 & H3 & H4 & H5).
      exists w1. repeat split; try assumption.
      rewrite H5, <- app_assoc. reflexivity.
Qed.

(** C7, as the code has it: when the role is known, its name is valid and
    [open] fails on the limit file with any error other than [EAGAIN]
    (after any number of attempts that failed with [EAGAIN]), the function
    returns: after the path calls and the attempts to open, the only call
    is the release of the path buffer (nothing is read, no count is
    compared), and the errno slot is as it was on entry. *)
Theorem open_failure_admits (rolname dir : string) (w : world) (e : positive) :
  connlimitDirectory w = Some dir ->
  OidIsValid (get_role_oid w rolname) = true ->
  isalphanum rolname = true ->
  fs w (limit_path dir rolname) = inl e ->
  Z.pos e <> EAGAIN ->
  exists w',
    enforce_limit rolname w = Returned w' /\
    admits (enforce_limit rolname w) = true /\
    errno w' = errno w /\
    opened w' = opened w /\
    calls w' = (calls w ++ path_calls dir rolname
                  ++ repeat (Open (limit_path dir rolname)) (S (open_eagain w))
                  ++ [Pfree PathBuf])%list.
Proof.
  intros Hdir Hoid Hname Hfs Hne.
  unfold enforce_limit. rewrite Hdir, Hoid, Hname. cbn [negb].
  rewrite build_path_spec.
  set (w0 := log _ (log _ (log _ (log _ w)))).
  pose proof (open_retry_steady (limit_path dir rolname) (open_eagain w0) w0
                eq_refl) as S.
  change (fs w0 (limit_path dir rolname)) with (fs w (limit_path dir rolname)) in S.
  rewrite Hfs in S.
  apply Z.eqb_neq in Hne. rewrite Hne in S.
  destruct S as (w1 & H1 & H2 & H3 & H4 & H5).
  unfold open_fuel. rewrite H1, H2. cbn [Z.eqb negb].
  eexists. split; [reflexivity|]. split; [reflexivity|].
  unfold cleanup. cbn [errno opened calls set_errno log].
  repeat split.
  - exact H3.
  - rewrite H5. subst w0. cbn [calls log open_eagain]. unfold path_calls.
    rewrite <- !app_assoc. reflexivity.
Qed.

Lemma open_failure_admits_witness :
  exists w',
    enforce_limit "arolename"
      (set_errno 4 (sample_world (Some "/etc/connlimit") "/elsewhere" "10" 50 false))
    = Returned w' /\
    errno w' = 4.
Proof.
  destruct (open_failure_admits "arolename" "/etc/connlimit"
              (set_errno 4 (sample_world (Some "/etc/connlimit") "/elsewhere" "10" 50 false))
              2%positive)
    as (w' & H & _ & He & _); try reflexivity.
  - discriminate.
  - exists w'. split; [exact H|exact He].
Defined.

(** C7 as claimed fails for the error EAGAIN: the first [open] of the limit
    file fails with EAGAIN, the loop tries again, the second [open]
    succeeds, the limit 0 is read and the role is rejected. *)
Lemma open_failure_eagain_is_retried :
  let w := set_open_eagain 1
             (sample_world (Some "/etc/connlimit") "/etc/connlimit/arolename"
                "0" 0 false) in
  fst (sys_open "/etc/connlimit/arolename" w) = -1 /\
  errno (snd (sys_open "/etc/connlimit/arolename" w)) = EAGAIN /\
  admits (enforce_limit "arolename" w) = false /\
  rejects (enforce_limit "arolename" w) = true.
Proof. vm_compute. repeat split; reflexivity. Qed.

(** ** The read stage *)

Lemma read_retry_eq (fuel : nat) (fd remaining : Z) (limitBuf : StringInfoData)
  (w : world) :
  read_retry (S fuel) fd remaining limitBuf w
  = let '(n, bytes, w1) :=
      sys_read fd (remaining - len limitBuf) (set_errno 0 w) in
    let limitBuf1 :=
      if 0 <? n
      then {| data := data limitBuf ++ bytes;
              len := len limitBuf + n;
              maxlen := maxlen limitBuf |}
      else limitBuf in
    if (errno w1 =? EAGAIN) && (len limitBuf1 <? remaining)
    then read_retry fuel fd remaining limitBuf1 w1
    else Some (limitBuf1, w1).
Proof. reflexivity. Qed.

(** A successful [read] stores at most [count] bytes and leaves errno alone;
    it uses up no more of the script than its first event. *)
Lemma deliver_props (fd count : Z) (w : world) :
  let '(n, bytes, w1) := deliver fd count w in
  n <= Z.max 0 count /\
  (errno w1 = errno w \/ errno w1 = EBADF) /\
  read_script w1 = read_script w.
Proof.
  unfold deliver. destruct (opened w) as [[fd' unread]|].
  - destruct (fd' =? fd).
    + cbn [errno set_opened read_script]. repeat split; [|now left].
      lia.
    + cbn [errno set_errno read_script]. repeat split; [lia|now right].
  - cbn [errno set_errno read_script]. repeat split; [lia|now right].
Qed.

Lemma sys_read_props (fd count : Z) (w : world) :
  let '(n, bytes, w1) := sys_read fd count w in
  n <= Z.max 0 count /\
  (List.length (read_script w1) <= List.length (read_script w))%nat /\
  (errno w = 0 -> errno w1 = EAGAIN ->
   (List.length (read_script w1) < List.length (read_script w))%nat).
Proof.
  unfold sys_read.
  change (read_script (log (Read fd count) w)) with (read_script w).
  destruct (read_script w) as [|[e|k] rest] eqn:Hs.
  - pose proof (deliver_props fd count (log (Read fd count) w)) as D.
    destruct (deliver fd count (log (Read fd count) w)) as [[n bytes] w1].
    destruct D as (Hn & He & Hr).
    change (read_script (log (Read fd count) w)) with (read_script w) in Hr.
    change (errno (log (Read fd count) w)) with (errno w) in He.
    rewrite Hr, Hs. repeat split; [exact Hn|reflexivity|].
    intros H0 H1. exfalso. destruct He as [He|He]; rewrite He in H1.
    + rewrite H0 in H1. discriminate H1.
    + discriminate H1.
  - cbn [read_script set_errno set_read_script List.length].
    repeat split; lia.
  - pose proof (deliver_props fd (Z.min count (Z.pos k))
                  (set_read_script rest (log (Read fd count) w))) as D.
    destruct (deliver fd (Z.min count (Z.pos k))
                (set_read_script rest (log (Read fd count) w)))
      as [[n bytes] w1].
    destruct D as (Hn & He & Hr).
    cbn [read_script set_read_script] in Hr. rewrite Hr.
    cbn [List.length]. repeat split; lia.
Qed.


(** The length test after the loop can never succeed: the loop stores at
    most [remaining] bytes, and [remaining] is below [maxlen]. *)
Lemma read_retry_bound (fd remaining : Z) :
  forall fuel limitBuf w limitBuf1 w1,
    read_retry fuel fd remaining limitBuf w = Some (limitBuf1, w1) ->
    0 <= len limitBuf <= remaining ->
    len limitBuf <= len limitBuf1 <= remaining /\
    maxlen limitBuf1 = maxlen limitBuf.
Proof.
  induction fuel as [|fuel IH]; intros limitBuf w limitBuf1 w1;
    [discriminate|].
  rewrite read_retry_eq.
  pose proof (sys_read_props fd (remaining - len limitBuf) (set_errno 0 w))
    as P.
  destruct (sys_read fd (remaining - len limitBuf) (set_errno 0 w))
    as [[n bytes] w0].
  destruct P as (Hn & _ & _). cbv zeta.
  intros H Hb.
  assert (B : 0 <= len (if 0 <? n
                        then {| data := data limitBuf ++ bytes;
                                len := len limitBuf + n;
                                maxlen := maxlen limitBuf |}
                        else limitBuf) <= remaining
              /\ len limitBuf <= len (if 0 <? n
                        then {| data := data limitBuf ++ bytes;
                                len := len limitBuf + n;
                                maxlen := maxlen limitBuf |}
                        else limitBuf)
              /\ maxlen (if 0 <? n
                        then {| data := data limitBuf ++ bytes;
                                len := len limitBuf + n;
                                maxlen := maxlen limitBuf |}
                        else limitBuf) = maxlen limitBuf).
  { destruct (0 <? n) eqn:E; cbn [len maxlen]; [|lia].
    apply Z.ltb_lt in E. lia. }
  destruct B as (B1 & B2 & B3).
  match type of H with (if ?c then _ else _) = _ => destruct c end.
  - apply IH in H; [|exact B1]. rewrite B3 in H. lia.
  - injection H as <- <-. rewrite B3. lia.
Qed.


(** ** The parse stage *)

Lemma digits_nul (s : string) :
  forall acc count,
    digits acc count (s ++ String NUL EmptyString) = digits acc count s.
Proof.
  induction s as [|c rest IH]; intros acc count; simpl; [reflexivity|].
  destruct (digit_val c); [apply IH|reflexivity].
Qed.

Lemma take_sign_nul (s : string) :
  s <> EmptyString ->
  take_sign (s ++ String NUL EmptyString)
  = (fst (take_sign s), snd (take_sign s) ++ String NUL EmptyString).
Proof.
  destruct s as [|c rest]; [congruence|]. intros _.
  unfold take_sign. cbn [append].
  destruct (char_val c =? 45); [reflexivity|].
  destruct (char_val c =? 43); reflexivity.
Qed.

(** The terminator added after the bytes read does not change the
    subject sequence. *)
Lemma subject_value_nul (s : string) :
  subject_value (s ++ String NUL EmptyString) = subject_value s.
Proof.
  unfold subject_value.
  induction s as [|c rest IH]; [reflexivity|].
  cbn [append skip_space].
  destruct (isspace c); [exact IH|].
  change (String c (rest ++ String NUL EmptyString))
    with (String c rest ++ String NUL EmptyString).
  rewrite take_sign_nul by discriminate.
  destruct (take_sign (String c rest)) as [neg s']. cbn [fst snd].
  now rewrite digits_nul.
Qed.

Lemma strtol_result_nul (einval : bool) (s : string) :
  strtol_result einval (s ++ String NUL EmptyString) = strtol_result einval s.
Proof. unfold strtol_result. now rewrite subject_value_nul. Qed.

Lemma strtol_result_errno (einval : bool) (s : string) (v e : Z) :
  strtol_result einval s = (v, Some e) -> e <> 0.
Proof.
  unfold strtol_result.
  destruct (subject_value s) as [x|].
  - destruct (LONG_MAX <? x); [intro H; injection H as <- <-; discriminate|].
    destruct (x <? LONG_MIN); intro H; [|discriminate H].
    injection H as <- <-; discriminate.
  - destruct einval; intro H; [|discriminate H].
    injection H as <- <-; discriminate.
Qed.

(** What happens once the bytes are in the buffer: a conversion that stores
    an error number ends in [cleanup_opened], any other goes to the quota
    test with the converted value. *)
Lemma parse_and_check_cases (rolname : string) (roleid fd save_errno : Z)
  (limitBuf : StringInfoData) (w : world) :
  errno w = 0 ->
  parse_and_check rolname roleid fd save_errno limitBuf w
  = match strtol_result (strtol_einval w) (data limitBuf) with
    | (_, Some e) => cleanup_opened fd save_errno (set_errno e w)
    | (limit, None) => check_quota rolname roleid fd save_errno limit w
    end.
Proof.
  intro H0. unfold parse_and_check, strtol, terminate. cbn [data].
  rewrite strtol_result_nul.
  destruct (strtol_result (strtol_einval w) (data limitBuf)) as [v [e|]] eqn:E.
  - apply strtol_result_errno in E. cbn [errno set_errno].
    apply Z.eqb_neq in E. now rewrite E.
  - now rewrite H0.
Qed.

(** Every stage before the parser succeeded: the function continues at the
    parser with the bytes of [limit_source_content], in the same
    environment and with a clear errno. *)
Lemma enforce_limit_reaches_parser (rolname : string) (w : world) (b : string) :
  limit_source_content rolname w = Some b ->
  exists fd limitBuf w3,
    enforce_limit rolname w
    = parse_and_check rolname (get_role_oid w rolname) fd (errno w) limitBuf w3 /\
    data limitBuf = b /\
    errno w3 = 0 /\
    same_env w w3.
Proof.
  unfold limit_source_content, enforce_limit.
  destruct (connlimitDirectory w) as [dir|]; [|discriminate].
  destruct (OidIsValid (get_role_oid w rolname)); [|discriminate].
  destruct (isalphanum rolname); [|discriminate].
  cbn [andb negb].
  pose proof (build_path_frame dir rolname w) as F0.
  pose proof (build_path_errno dir rolname w) as E0.
  destruct (build_path dir rolname w) as [path w0]. cbn [snd] in F0, E0.
  rewrite E0.
  destruct (open_retry (open_fuel w0) path w0) as [[fd w1]|] eqn:O;
    [|discriminate].
  apply open_retry_frame in O.
  destruct (errno w1 =? 0); [|discriminate]. cbn [negb].
  unfold read_and_check.
  change (maxlen initStringInfo - sizeof_char_constant)
    with (StringInfo_initial_size - sizeof_char_constant).
  set (w2 := log (InitStringInfo LimitBuf) w1).
  destruct (read_retry (read_fuel w2) fd _ initStringInfo w2)
    as [[limitBuf w3]|] eqn:R; [|discriminate].
  apply read_retry_frame in R.
  destruct (errno w3 =? 0) eqn:E3; [|discriminate].
  destruct (len limitBuf =? maxlen limitBuf); [discriminate|].
  cbn [negb andb orb]. intro H. injection H as <-.
  exists fd, limitBuf, w3. split; [reflexivity|]. split; [reflexivity|].
  split.
  - now apply Z.eqb_eq.
  - eapply same_env_trans; [exact F0|].
    eapply same_env_trans; [exact O|].
    eapply same_env_trans; [|exact R].
    subst w2. apply same_env_log. reflexivity.
Qed.

Lemma check_quota_rejects (rolname : string) (roleid fd save_errno limit : Z)
  (w : world) :
  rejects (check_quota rolname roleid fd save_errno limit w)
  = (Z.of_nat (CountUserBackends w roleid) >=? limit).
Proof.
  unfold check_quota.
  destruct (Z.of_nat (CountUserBackends w roleid) >=? limit); reflexivity.
Qed.

Lemma check_quota_admits (rolname : string) (roleid fd save_errno limit : Z)
  (w : world) :
  admits (check_quota rolname roleid fd save_errno limit w)
  = negb (Z.of_nat (CountUserBackends w roleid) >=? limit).
Proof.
  unfold check_quota.
  destruct (Z.of_nat (CountUserBackends w roleid) >=? limit); reflexivity.
Qed.

(** The decision after a successful read, in terms of the conversion. *)
Lemma enforce_limit_decision (rolname : string) (w : world) (b : string) :
  limit_source_content rolname w = Some b ->
  match strtol_result (strtol_einval w) b with
  | (_, Some _) =>
      admits (enforce_limit rolname w) = true /\
      rejects (enforce_limit rolname w) = false
  | (limit, None) =>
      rejects (enforce_limit rolname w)
      = (Z.of_nat (CountUserBackends w (get_role_oid w rolname)) >=? limit) /\
      admits (enforce_limit rolname w)
      = negb (Z.of_nat (CountUserBackends w (get_role_oid w rolname)) >=? limit)
  end.
Proof.
  intro H.
  destruct (enforce_limit_reaches_parser _ _ _ H)
    as (fd & limitBuf & w3 & -> & Hd & H0 & F).
  rewrite (parse_and_check_cases _ _ _ _ _ _ H0), Hd.
  destruct F as (_ & _ & Hc & _ & Hs & _). rewrite Hs.
  destruct (strtol_result (strtol_einval w) b) as [limit [e|]].
  - split; reflexivity.
  - rewrite check_quota_rejects, check_quota_admits, Hc. split; reflexivity.
Qed.

(** ** The admission decision *)

(** C4: when the directory is configured, the role known, the name valid,
    the file read and the limit converted, the backend is ended with
    ERRCODE_TOO_MANY_CONNECTIONS exactly when the live count is at least
    the limit, and the function returns exactly when the count is below it;
    with the file content 10, nine live backends are admitted and ten are
    rejected. *)
Theorem quota_decision (rolname : string) (w : world) (b : string) (limit : Z) :
  limit_source_content rolname w = Some b ->
  strtol_result (strtol_einval w) b = (limit, None) ->
  let liveCount := Z.of_nat (CountUserBackends w (get_role_oid w rolname)) in
  (rejects (enforce_limit rolname w) = true <-> liveCount >= limit) /\
  (admits (enforce_limit rolname w) = true <-> liveCount < limit) /\
  admits (enforce_limit "arolename"
            (sample_world (Some "/etc/connlimit") "/etc/connlimit/arolename"
               "10" 9 false)) = true /\
  rejects (enforce_limit "arolename"
             (sample_world (Some "/etc/connlimit") "/etc/connlimit/arolename"
                "10" 10 false)) = true.
Proof.
  intros Hb Hp liveCount.
  pose proof (enforce_limit_decision _ _ _ Hb) as D. rewrite Hp in D.
  destruct D as [-> ->]. fold liveCount.
  rewrite negb_true_iff, Z.geb_le.
  split; [lia|]. split.
  - destruct (liveCount >=? limit) eqn:E.
    + apply Z.geb_le in E. split; [discriminate|lia].
    + split; [|reflexivity]. intros _.
      destruct (Z.lt_ge_cases liveCount limit) as [L|G]; [exact L|].
      apply Z.geb_le in G. congruence.
  - split; vm_compute; reflexivity.
Qed.

Lemma quota_decision_witness :
  rejects (enforce_limit "arolename"
             (sample_world (Some "/srv/limits") "/srv/limits/arolename"
                "30 backends" 30 false)) = true <-> 30 >= 30.
Proof.
  exact (proj1 (quota_decision "arolename"
                  (sample_world (Some "/srv/limits") "/srv/limits/arolename"
                     "30 backends" 30 false)
                  "30 backends" 30 eq_refl eq_refl)).
Defined.

(** C10: when every stage succeeds and the converted limit is zero or
    negative, the backend is ended whatever the live count is (the count is
    never negative). *)
Theorem nonpositive_limit_rejects (rolname : string) (w : world) (b : string)
  (limit : Z) :
  limit_source_content rolname w = Some b ->
  strtol_result (strtol_einval w) b = (limit, None) ->
  limit <= 0 ->
  rejects (enforce_limit rolname w) = true.
Proof.
  intros Hb Hp Hl.
  pose proof (enforce_limit_decision _ _ _ Hb) as D. rewrite Hp in D.
  destruct D as [-> _]. apply Z.geb_le. lia.
Qed.

Lemma nonpositive_limit_rejects_witness :
  rejects (enforce_limit "arolename"
             (sample_world (Some "/srv/limits") "/srv/limits/arolename"
                "-5" 0 false)) = true.
Proof.
  apply (nonpositive_limit_rejects "arolename"
           (sample_world (Some "/srv/limits") "/srv/limits/arolename"
              "-5" 0 false) "-5" (-5)).
  - reflexivity.
  - reflexivity.
  - lia.
Defined.

(** C8: when the digits at the head of the bytes read denote an integer
    outside the range of [long], the conversion stores ERANGE and the
    function returns without comparing any count: the clamped value is
    never used as a limit. *)
Theorem overflow_admits (rolname : string) (w : world) (b : string) (v : Z) :
  limit_source_content rolname w = Some b ->
  subject_value b = Some v ->
  v < LONG_MIN \/ LONG_MAX < v ->
  snd (strtol_result (strtol_einval w) b) = Some ERANGE /\
  admits (enforce_limit rolname w) = true /\
  rejects (enforce_limit rolname w) = false.
Proof.
  intros Hb Hv Hr.
  pose proof (enforce_limit_decision _ _ _ Hb) as D.
  unfold strtol_result in *. rewrite Hv in *.
  destruct (LONG_MAX <? v) eqn:E1.
  - split; [reflexivity|exact D].
  - destruct (v <? LONG_MIN) eqn:E2.
    + split; [reflexivity|exact D].
    + apply Z.ltb_ge in E1, E2. lia.
Qed.

Lemma overflow_admits_witness :
  admits (enforce_limit "arolename"
            (sample_world (Some "/srv/limits") "/srv/limits/arolename"
               "9223372036854775808" 0 false)) = true.
Proof.
  apply (overflow_admits "arolename"
           (sample_world (Some "/srv/limits") "/srv/limits/arolename"
              "9223372036854775808" 0 false)
           "9223372036854775808" 9223372036854775808).
  - reflexivity.
  - reflexivity.
  - right. reflexivity.
Defined.

(** ** Files larger than the buffer *)

Lemma take_bytes_0 (s : string) : take_bytes 0 s = EmptyString.
Proof. destruct s; reflexivity. Qed.

(** With no transient failure, one [read] fills the buffer with the first
    [remaining] bytes of the file (all of them when the file is shorter)
    and the loop ends with errno clear. *)
Lemma read_retry_plain (fd remaining : Z) (w : world) (content : string) :
  read_script w = [] ->
  opened w = Some (fd, content) ->
  exists w1,
    read_retry (read_fuel w) fd remaining initStringInfo w
    = Some ({| data := take_bytes (Nat.min (Z.to_nat remaining)
                                     (String.length content)) content;
               len := Z.of_nat (Nat.min (Z.to_nat remaining)
                                  (String.length content));
               maxlen := StringInfo_initial_size |}, w1) /\
    errno w1 = 0.
Proof.
  intros Hs Ho. unfold read_fuel. rewrite Hs. cbn [List.length].
  rewrite read_retry_eq. unfold sys_read.
  change (len initStringInfo) with 0. rewrite Z.sub_0_r.
  change (read_script (log (Read fd remaining) (set_errno 0 w)))
    with (read_script w).
  rewrite Hs. unfold deliver.
  change (opened (log (Read fd remaining) (set_errno 0 w))) with (opened w).
  rewrite Ho, Z.eqb_refl. cbv zeta.
  set (n := Nat.min (Z.to_nat remaining) (String.length content)).
  cbn [errno set_opened set_errno log]. change (0 =? EAGAIN) with false.
  cbn [andb].
  eexists. split.
  - f_equal. f_equal.
    destruct n as [|n'].
    + change (0 <? Z.of_nat 0) with false. cbv iota.
      rewrite take_bytes_0. reflexivity.
    + replace (0 <? Z.of_nat (S n')) with true
        by (symmetry; apply Z.ltb_lt; lia).
      reflexivity.
  - reflexivity.
Qed.

(** The bytes handed to the parser when nothing fails: the first 1020
    bytes of the file, whatever its size.  A file larger than the buffer is
    not refused; its head is parsed. *)
Lemma limit_source_content_plain (rolname dir content : string) (w : world) :
  connlimitDirectory w = Some dir ->
  OidIsValid (get_role_oid w rolname) = true ->
  isalphanum rolname = true ->
  fs w (limit_path dir rolname) = inr content ->
  read_script w = [] ->
  limit_source_content rolname w
  = Some (take_bytes (Nat.min 1020 (String.length content)) content).
Proof.
  intros Hdir Hoid Hname Hfs Hs.
  unfold limit_source_content. rewrite Hdir, Hoid, Hname. cbn [andb].
  rewrite build_path_spec.
  set (w0 := log _ (log _ (log _ (log _ w)))).
  pose proof (open_retry_steady (limit_path dir rolname) (open_eagain w0) w0
                eq_refl) as S.
  change (fs w0 (limit_path dir rolname)) with (fs w (limit_path dir rolname)) in S.
  rewrite Hfs in S.
  destruct S as (w1 & H1 & H2 & H3 & H4 & _).
  unfold open_fuel. rewrite H1, H2. cbn [Z.eqb].
  change (read_script w0) with (read_script w) in H4. rewrite Hs in H4.
  destruct (read_retry_plain (free_fd w0)
              (StringInfo_initial_size - sizeof_char_constant)
              (log (InitStringInfo LimitBuf) w1) content H4 H3)
    as (w3 & R & E3).
  rewrite R, E3. cbn [len maxlen data Z.eqb].
  change (Z.to_nat (StringInfo_initial_size - sizeof_char_constant))
    with 1020%nat.
  replace (Z.of_nat (Nat.min 1020 (String.length content))
           =? StringInfo_initial_size) with false; [reflexivity|].
  symmetry. apply Z.eqb_neq. unfold StringInfo_initial_size. lia.
Qed.

(** The length test after the read loop never fires when the loop is
    entered with an empty buffer. *)
Lemma too_large_test_is_dead (fd : Z) (w : world) (limitBuf : StringInfoData)
  (w1 : world) :
  read_retry (read_fuel w) fd
    (maxlen initStringInfo - sizeof_char_constant) initStringInfo w
  = Some (limitBuf, w1) ->
  (len limitBuf =? maxlen limitBuf) = false.
Proof.
  intro H. apply read_retry_bound in H.
  - apply Z.eqb_neq. destruct H as [H1 H2]. rewrite H2.
    change (maxlen initStringInfo) with 1024 in *.
    change sizeof_char_constant with 4 in *. lia.
  - cbn. lia.
Qed.

(** C3 (the code departs from it): a limit file of 1102 bytes, the digit 7,
    a newline and 1100 bytes of comment, is larger than the 1024-byte
    buffer.  The file is not refused: its first 1020 bytes reach the parser,
    the limit 7 is enforced, and a role with seven live backends is
    rejected. *)
Theorem oversized_file_is_enforced :
  let content := "7" ++ String "010"%char (repeat_char "#"%char 1100) in
  let w := sample_world (Some "/etc/connlimit") "/etc/connlimit/arolename"
             content 7 false in
  Nat.ltb 1024 (String.length content) = true /\
  limit_source_content "arolename" w = Some (take_bytes 1020 content) /\
  admits (enforce_limit "arolename" w) = false /\
  rejects (enforce_limit "arolename" w) = true.
Proof. vm_compute. repeat split; reflexivity. Qed.

(** ** Content without digits *)

(** With a libc that stores nothing in errno when [strtol] converts
    nothing (ISO C, glibc), content without digits is taken as the limit 0
    and every connection of the role is rejected. *)
Lemma no_digits_rejects_without_einval (rolname : string) (w : world)
  (b : string) :
  limit_source_content rolname w = Some b ->
  subject_value b = None ->
  strtol_einval w = false ->
  rejects (enforce_limit rolname w) = true.
Proof.
  intros Hb Hv He.
  pose proof (enforce_limit_decision _ _ _ Hb) as D.
  unfold strtol_result in D. rewrite Hv, He in D.
  destruct D as [-> _]. apply Z.geb_le. lia.
Qed.

(** With a libc that stores EINVAL then (BSD), the function returns. *)
Lemma no_digits_admits_with_einval (rolname : string) (w : world)
  (b : string) :
  limit_source_content rolname w = Some b ->
  subject_value b = None ->
  strtol_einval w = true ->
  admits (enforce_limit rolname w) = true.
Proof.
  intros Hb Hv He.
  pose proof (enforce_limit_decision _ _ _ Hb) as D.
  unfold strtol_result in D. rewrite Hv, He in D.
  apply D.
Qed.

(** C1 (the code departs from it): the limit file holds abc.  The bytes
    have no digit, [strtol] returns 0 and leaves errno clear, the test for a
    failed conversion passes, and the role is rejected although it has no
    live backend at all. *)
Theorem content_without_digits_is_enforced :
  let w := sample_world (Some "/etc/connlimit") "/etc/connlimit/arolename"
             "abc" 0 false in
  limit_source_content "arolename" w = Some "abc" /\
  subject_value "abc" = None /\
  strtol_result (strtol_einval w) "abc" = (0, None) /\
  admits (enforce_limit "arolename" w) = false /\
  rejects (enforce_limit "arolename" w) = true.
Proof. vm_compute. repeat split; reflexivity. Qed.

(** ** The directory setting *)

(** A NULL directory ends the function at once. *)
Lemma null_directory_admits (rolname : string) (w : world) :
  connlimitDirectory w = None -> enforce_limit rolname w = Returned w.
Proof. intro H. unfold enforce_limit. now rewrite H. Qed.

(** After [_PG_init] the variable is never NULL: left out of the
    configuration file it holds the boot value, the empty string. *)
Lemma PG_init_directory_not_null (configured : option string) (h : hooks)
  (w : world) :
  connlimitDirectory (snd (_PG_init configured h w)) <> None /\
  (configured = None ->
   connlimitDirectory (snd (_PG_init configured h w)) = Some EmptyString).
Proof.
  unfold _PG_init, DefineCustomStringVariable. cbn [snd connlimitDirectory set_directory].
  destruct configured; split; try discriminate; reflexivity.
Qed.


(** ** The previous handler *)

Lemma cleanup_leaves_env (save_errno : Z) (w0 w : world) :
  same_env w0 w -> leaves_env w0 (cleanup save_errno w).
Proof. intro F. unfold cleanup, leaves_env. frame. exact F. Qed.

Lemma cleanup_opened_leaves_env (fd save_errno : Z) (w0 w : world) :
  same_env w0 w -> leaves_env w0 (cleanup_opened fd save_errno w).
Proof.
  intro F. unfold cleanup_opened. apply cleanup_leaves_env.
  eapply same_env_trans; [|apply sys_close_frame]. frame. exact F.
Qed.

Lemma check_quota_leaves_env (rolname : string)
  (roleid fd save_errno limit : Z) (w0 w : world) :
  same_env w0 w ->
  leaves_env w0 (check_quota rolname roleid fd save_errno limit w).
Proof.
  intro F. unfold check_quota.
  destruct (Z.of_nat (CountUserBackends w roleid) >=? limit).
  - unfold leaves_env. frame. exact F.
  - now apply cleanup_opened_leaves_env.
Qed.

Lemma parse_and_check_leaves_env (rolname : string)
  (roleid fd save_errno : Z) (limitBuf : StringInfoData) (w0 w : world) :
  same_env w0 w ->
  leaves_env w0 (parse_and_check rolname roleid fd save_errno limitBuf w).
Proof.
  intro F. unfold parse_and_check.
  pose proof (strtol_frame (data (terminate limitBuf)) w) as S.
  destruct (strtol (data (terminate limitBuf)) w) as [limit w1].
  cbn [snd] in S.
  assert (F1 : same_env w0 w1) by (eapply same_env_trans; eassumption).
  destruct (negb (errno w1 =? 0)).
  - now apply cleanup_opened_leaves_env.
  - now apply check_quota_leaves_env.
Qed.

Lemma read_and_check_leaves_env (rolname : string)
  (roleid fd save_errno : Z) (w0 w : world) :
  same_env w0 w ->
  leaves_env w0 (read_and_check rolname roleid fd save_errno w).
Proof.
  intro F. unfold read_and_check.
  destruct (read_retry _ _ _ _ _) as [[limitBuf w1]|] eqn:R; [|exact I].
  apply read_retry_frame in R.
  assert (F1 : same_env w0 w1).
  { eapply same_env_trans; [|exact R]. frame. exact F. }
  destruct (negb (errno w1 =? 0) || (len limitBuf =? maxlen limitBuf)).
  - now apply cleanup_opened_leaves_env.
  - now apply parse_and_check_leaves_env.
Qed.

Lemma enforce_limit_leaves_env (rolname : string) (w : world) :
  leaves_env w (enforce_limit rolname w).
Proof.
  unfold enforce_limit.
  destruct (connlimitDirectory w) as [dir|]; [|apply same_env_refl].
  destruct (negb (OidIsValid (get_role_oid w rolname)));
    [apply same_env_refl|].
  destruct (negb (isalphanum rolname)); [apply same_env_refl|].
  pose proof (build_path_frame dir rolname w) as F0.
  destruct (build_path dir rolname w) as [path w0]. cbn [snd] in F0.
  destruct (open_retry (open_fuel w0) path w0) as [[fd w1]|] eqn:O;
    [|exact I].
  apply open_retry_frame in O.
  assert (F1 : same_env w w1) by (eapply same_env_trans; eassumption).
  destruct (negb (errno w1 =? 0)).
  - now apply cleanup_leaves_env.
  - now apply read_and_check_leaves_env.
Qed.

Lemma same_env_prev_hook_runs (w w' : world) :
  same_env w w' -> prev_hook_runs_in w' = prev_hook_runs_in w.
Proof.
  intros (_ & _ & _ & _ & _ & l & Hl & Hp). unfold prev_hook_runs_in.
  now rewrite Hl, filter_app, Hp, app_nil_r.
Qed.

Lemma recording_handler_runs (port : Port) (status : Z) (w : world) :
  prev_hook_runs (recording_handler port status w)
  = S (prev_hook_runs_in w).
Proof.
  unfold prev_hook_runs, prev_hook_runs_in, recording_handler.
  cbn [final_calls calls log].
  rewrite filter_app, length_app. cbn. lia.
Qed.

(** C5, as the code has it: when the hook is called with a status other
    than STATUS_OK, or the check returns, the previous handler is applied
    once, to the state the check left; when the check ends the backend, the
    hook ends there and the previous handler is not run. *)
Theorem previous_handler_runs_once_unless_rejected (h : handler) (port : Port)
  (status : Z) (w : world) :
  (status <> STATUS_OK ->
   client_auth_hook (Some h) port status w = h port status w /\
   prev_hook_runs (client_auth_hook (Some recording_handler) port status w)
   = S (prev_hook_runs_in w)) /\
  (status = STATUS_OK ->
   forall w1, enforce_limit (user_name port) w = Returned w1 ->
     client_auth_hook (Some h) port status w = h port status w1 /\
     prev_hook_runs (client_auth_hook (Some recording_handler) port status w)
     = S (prev_hook_runs_in w)) /\
  (status = STATUS_OK ->
   forall c m w1, enforce_limit (user_name port) w = Fatal c m w1 ->
     client_auth_hook (Some h) port status w = Fatal c m w1 /\
     prev_hook_runs (client_auth_hook (Some recording_handler) port status w)
     = prev_hook_runs_in w).
Proof.
  split; [|split].
  - intro Hs. apply Z.eqb_neq in Hs. unfold client_auth_hook. rewrite Hs.
    split; [reflexivity|apply recording_handler_runs].
  - intros -> w1 H. unfold client_auth_hook.
    change (STATUS_OK =? STATUS_OK) with true. cbv iota. rewrite H.
    split; [reflexivity|].
    rewrite recording_handler_runs. f_equal.
    apply same_env_prev_hook_runs.
    pose proof (enforce_limit_leaves_env (user_name port) w) as L.
    now rewrite H in L.
  - intros -> c m w1 H. unfold client_auth_hook.
    change (STATUS_OK =? STATUS_OK) with true. cbv iota. rewrite H.
    split; [reflexivity|].
    change (prev_hook_runs (Fatal c m w1)) with (prev_hook_runs_in w1).
    apply same_env_prev_hook_runs.
    pose proof (enforce_limit_leaves_env (user_name port) w) as L.
    now rewrite H in L.
Qed.

Lemma previous_handler_runs_once_unless_rejected_witness :
  prev_hook_runs
    (client_auth_hook (Some recording_handler) {| user_name := "arolename" |}
       STATUS_ERROR
       (sample_world (Some "/etc/connlimit") "/etc/connlimit/arolename"
          "10" 10 false))
  = 1%nat.
Proof.
  apply (proj1 (previous_handler_runs_once_unless_rejected
                  recording_handler {| user_name := "arolename" |}
                  STATUS_ERROR
                  (sample_world (Some "/etc/connlimit")
                     "/etc/connlimit/arolename" "10" 10 false))).
  discriminate.
Defined.

(** C5 as claimed fails on the reject path: status is STATUS_OK, the role
    has reached its limit of 10, the hook ends the backend, and the
    previous handler has not run. *)
Lemma previous_handler_skipped_on_reject :
  let o := client_auth_hook (Some recording_handler)
             {| user_name := "arolename" |} STATUS_OK
             (sample_world (Some "/etc/connlimit") "/etc/connlimit/arolename"
                "10" 10 false) in
  rejects o = true /\ prev_hook_runs o = 0%nat /\ prev_hook_runs o <> 1%nat.
Proof. vm_compute. repeat split; discriminate. Qed.

(** ** The stdio revision *)

Lemma stdio_AllocateFile_frame (path : string) (w : world) :
  same_env w (snd (Stdio.AllocateFile_r path w)).
Proof.
  unfold Stdio.AllocateFile_r.
  destruct (open_eagain (log (AllocateFile path) w)); cbn [snd]; [|frame].
  destruct (fs (log (AllocateFile path) w) path); cbn [snd]; frame.
Qed.

Lemma stdio_fscanf_frame (fp : Z) (w : world) :
  same_env w (snd (Stdio.fscanf_d fp w)).
Proof.
  unfold Stdio.fscanf_d.
  destruct (opened (log (Fscanf fp) w)) as [[fd unread]|]; cbn [snd]; [|frame].
  destruct (fd =? fp); cbn [snd]; frame.
Qed.

Lemma stdio_cleanup_leaves_env (save_errno : Z) (w0 w : world) :
  same_env w0 w -> leaves_env w0 (Stdio.cleanup save_errno w).
Proof. intro F. unfold Stdio.cleanup, leaves_env. frame. exact F. Qed.

Lemma stdio_cleanup_opened_leaves_env (fp save_errno : Z) (w0 w : world) :
  same_env w0 w -> leaves_env w0 (Stdio.cleanup_opened fp save_errno w).
Proof.
  intro F. unfold Stdio.cleanup_opened, Stdio.FreeFile_.
  apply stdio_cleanup_leaves_env. frame. exact F.
Qed.

Lemma stdio_enforce_limit_leaves_env (rolname : string) (w : world) :
  leaves_env w (Stdio.enforce_limit rolname w).
Proof.
  unfold Stdio.enforce_limit.
  destruct (connlimitDirectory w) as [dir|]; [|apply same_env_refl].
  destruct (negb (OidIsValid (get_role_oid w rolname)));
    [apply same_env_refl|].
  destruct (negb (Stdio.strspn rolname Stdio.accept_set =? strlen rolname));
    [apply same_env_refl|].
  cbv zeta.
  match goal with |- context [Stdio.AllocateFile_r ?p ?w0] =>
    pose proof (stdio_AllocateFile_frame p w0) as A;
    assert (F0 : same_env w w0) by frame;
    destruct (Stdio.AllocateFile_r p w0) as [[fp|] w1]
  end; cbn [snd] in A;
    assert (F1 : same_env w w1) by (eapply same_env_trans; eassumption).
  - pose proof (stdio_fscanf_frame fp w1) as S.
    destruct (Stdio.fscanf_d fp w1) as [[ret stored] w2]. cbn [snd] in S.
    assert (F2 : same_env w w2) by (eapply same_env_trans; eassumption).
    destruct (negb (ret =? 1)).
    + now apply stdio_cleanup_opened_leaves_env.
    + match goal with |- context [if ?c then _ else _] => destruct c end.
      * unfold leaves_env. frame. exact F2.
      * now apply stdio_cleanup_opened_leaves_env.
  - now apply stdio_cleanup_leaves_env.
Qed.

Lemma stdio_enforce_limit_terminates (rolname : string) (w : world) :
  Stdio.enforce_limit rolname w <> Diverges.
Proof.
  unfold Stdio.enforce_limit.
  destruct (connlimitDirectory w) as [dir|]; [|discriminate].
  destruct (negb (OidIsValid (get_role_oid w rolname))); [discriminate|].
  destruct (negb (Stdio.strspn rolname Stdio.accept_set =? strlen rolname));
    [discriminate|].
  cbv zeta.
  destruct (Stdio.AllocateFile_r _ _) as [[fp|] w1]; [|discriminate].
  destruct (Stdio.fscanf_d fp w1) as [[ret stored] w2].
  destruct (negb (ret =? 1)); [discriminate|].
  match goal with |- context [if ?c then _ else _] => destruct c end;
    discriminate.
Qed.

(** X10. In the stdio revision the previous handler runs once on every
    path, the reject path included: it is called before the check. *)
Lemma stdio_previous_handler_always_runs (port : Port) (status : Z)
  (w : world) :
  prev_hook_runs (Stdio.client_auth_hook (Some recording_handler) port status w)
  = S (prev_hook_runs_in w).
Proof.
  unfold Stdio.client_auth_hook, recording_handler.
  set (w1 := log (PrevHook (user_name port) status) w).
  assert (R : prev_hook_runs_in w1 = S (prev_hook_runs_in w)).
  { unfold prev_hook_runs_in, w1. cbn [calls log].
    rewrite filter_app, length_app. cbn. lia. }
  destruct (status =? STATUS_OK); [|exact R].
  pose proof (stdio_enforce_limit_leaves_env (user_name port) w1) as L.
  pose proof (stdio_enforce_limit_terminates (user_name port) w1) as T.
  destruct (Stdio.enforce_limit (user_name port) w1) as [w2|c m w2|];
    [| |congruence];
    cbn [leaves_env] in L; apply same_env_prev_hook_runs in L;
    unfold prev_hook_runs; cbn [final_calls];
    fold (prev_hook_runs_in w2); congruence.
Qed.

(** X14. In the stdio revision a stream without digits is not enforced:
    [fscanf] does not return 1. *)
Lemma stdio_no_digits_admits (rolname dir content : string) (w : world) :
  connlimitDirectory w = Some dir ->
  fs w (limit_path dir rolname) = inr content ->
  subject_value (Stdio.stream_bytes (read_script w) content) = None ->
  admits (Stdio.enforce_limit rolname w) = true.
Proof.
  intros Hdir Hfs Hv. unfold Stdio.enforce_limit. rewrite Hdir.
  destruct (negb (OidIsValid (get_role_oid w rolname))); [reflexivity|].
  destruct (negb (Stdio.strspn rolname Stdio.accept_set =? strlen rolname));
    [reflexivity|].
  cbv zeta. fold (limit_path dir rolname).
  unfold Stdio.AllocateFile_r.
  match goal with |- context [open_eagain ?w0] =>
    change (open_eagain w0) with (open_eagain w);
    change (fs w0 (limit_path dir rolname)) with (fs w (limit_path dir rolname))
  end.
  destruct (open_eagain w); [|reflexivity].
  rewrite Hfs. unfold Stdio.fscanf_d.
  match goal with |- context [opened (log (Fscanf ?fp) ?w1)] =>
    change (opened (log (Fscanf fp) w1)) with (Some (fp, content));
    change (read_script (log (Fscanf fp) w1)) with (read_script w)
  end.
  cbv beta iota. rewrite Z.eqb_refl. unfold Stdio.fscanf_result.
  unfold subject_value in Hv.
  assert (E : subject_value (skip_space (Stdio.stream_bytes (read_script w) content)) = None).
  { unfold subject_value.
    replace (skip_space (skip_space (Stdio.stream_bytes (read_script w) content)))
      with (skip_space (Stdio.stream_bytes (read_script w) content)); [exact Hv|].
    generalize (Stdio.stream_bytes (read_script w) content) as s.
    induction s as [|c rest IH]; [reflexivity|]. cbn [skip_space].
    destruct (isspace c) eqn:Ec; [exact IH|].
    cbn [skip_space]. now rewrite Ec. }
  destruct (skip_space (Stdio.stream_bytes (read_script w) content));
    [reflexivity|].
  rewrite E. reflexivity.
Qed.

(** The input on which [pg_connlimit.c] rejects, in the stdio revision:
    the content abc is not enforced. *)
Lemma stdio_content_without_digits_admits :
  admits (Stdio.enforce_limit "arolename"
            (sample_world (Some "/etc/connlimit") "/etc/connlimit/arolename"
               "abc" 0 false)) = true.
Proof. vm_compute. reflexivity. Qed.

(** A name that fails the [strspn] test leaves the state untouched. *)
Lemma stdio_invalid_name_returns (rolname : string) (w : world) :
  (Stdio.strspn rolname Stdio.accept_set =? strlen rolname) = false ->
  Stdio.enforce_limit rolname w = Returned w.
Proof.
  intro H. unfold Stdio.enforce_limit.
  destruct (connlimitDirectory w); [|reflexivity].
  destruct (negb (OidIsValid (get_role_oid w rolname))); [reflexivity|].
  now rewrite H.
Qed.

(** The [strspn] test is not [isalphanum]: it accepts the underscore and
    the empty name and refuses capital letters. *)
Lemma stdio_name_test_differs :
  (Stdio.strspn "a_b" Stdio.accept_set =? strlen "a_b") = true /\
  isalphanum "a_b" = false /\
  (Stdio.strspn "" Stdio.accept_set =? strlen "") = true /\
  isalphanum "" = false /\
  (Stdio.strspn "Bob" Stdio.accept_set =? strlen "Bob") = false /\
  isalphanum "Bob" = true.
Proof. vm_compute. repeat split; reflexivity. Qed.

(** X13. In the stdio revision any failure of [AllocateFile] ends in
    [cleanup]: there is no retry, a failure with EAGAIN is not enforced
    either. *)
Lemma stdio_allocate_failure_is_not_enforced (rolname dir : string) (w : world)
  (e : positive) :
  connlimitDirectory w = Some dir ->
  fs w (limit_path dir rolname) = inl e ->
  admits (Stdio.enforce_limit rolname w) = true.
Proof.
  intros Hdir Hfs. unfold Stdio.enforce_limit. rewrite Hdir.
  destruct (negb (OidIsValid (get_role_oid w rolname))); [reflexivity|].
  destruct (negb (Stdio.strspn rolname Stdio.accept_set =? strlen rolname));
    [reflexivity|].
  cbv zeta. fold (limit_path dir rolname).
  unfold Stdio.AllocateFile_r.
  match goal with |- context [open_eagain ?w0] =>
    change (open_eagain w0) with (open_eagain w);
    change (fs w0 (limit_path dir rolname)) with (fs w (limit_path dir rolname))
  end.
  destruct (open_eagain w); [|reflexivity].
  rewrite Hfs. reflexivity.
Qed.

(** The decision of the stdio revision once the file is open: a scan that
    does not return 1 is not enforced, any other compares the count with
    the stored value. *)
Lemma stdio_enforce_limit_decision (rolname dir content : string) (w : world) :
  connlimitDirectory w = Some dir ->
  OidIsValid (get_role_oid w rolname) = true ->
  (Stdio.strspn rolname Stdio.accept_set =? strlen rolname) = true ->
  open_eagain w = O ->
  fs w (limit_path dir rolname) = inr content ->
  match Stdio.fscanf_result (Stdio.stream_bytes (read_script w) content) with
  | (ret, stored) =>
      if ret =? 1 then
        rejects (Stdio.enforce_limit rolname w)
        = (Z.of_nat (CountUserBackends w (get_role_oid w rolname))
           >=? match stored with Some v => v | None => 0 end)
      else admits (Stdio.enforce_limit rolname w) = true
  end.
Proof.
  intros Hdir Hoid Hname He Hfs. unfold Stdio.enforce_limit.
  rewrite Hdir, Hoid, Hname. cbn [negb]. cbv zeta.
  fold (limit_path dir rolname).
  unfold Stdio.AllocateFile_r.
  match goal with |- context [open_eagain ?w0] =>
    change (open_eagain w0) with (open_eagain w);
    change (fs w0 (limit_path dir rolname)) with (fs w (limit_path dir rolname))
  end.
  rewrite He, Hfs. unfold Stdio.fscanf_d.
  match goal with |- context [opened (log (Fscanf ?fp) ?w1)] =>
    change (opened (log (Fscanf fp) w1)) with (Some (fp, content));
    change (read_script (log (Fscanf fp) w1)) with (read_script w)
  end.
  cbv beta iota. rewrite Z.eqb_refl.
  destruct (Stdio.fscanf_result (Stdio.stream_bytes (read_script w) content))
    as [ret stored].
  destruct (ret =? 1); cbn [negb]; [|reflexivity].
  match goal with |- context [CountUserBackends ?w2] =>
    change (CountUserBackends w2) with (CountUserBackends w)
  end.
  destruct (Z.of_nat (CountUserBackends w (get_role_oid w rolname))
            >=? match stored with Some v => v | None => 0 end);
    reflexivity.
Qed.

(** In the stdio revision too a scanned limit of zero or less rejects
    every connection of the role. *)
Lemma stdio_limit_at_most_zero_rejects (rolname dir content : string)
  (w : world) (limit : Z) :
  connlimitDirectory w = Some dir ->
  OidIsValid (get_role_oid w rolname) = true ->
  (Stdio.strspn rolname Stdio.accept_set =? strlen rolname) = true ->
  open_eagain w = O ->
  fs w (limit_path dir rolname) = inr content ->
  Stdio.fscanf_result (Stdio.stream_bytes (read_script w) content)
  = (1, Some limit) ->
  limit <= 0 ->
  rejects (Stdio.enforce_limit rolname w) = true.
Proof.
  intros Hdir Hoid Hname He Hfs Hscan Hl.
  pose proof (stdio_enforce_limit_decision _ _ _ _ Hdir Hoid Hname He Hfs) as D.
  rewrite Hscan in D. cbn [Z.eqb Pos.eqb] in D. rewrite D.
  apply Z.geb_le. lia.
Qed.

(** X12. In the stdio revision too the errno slot holds its entry value
    again on every path, the reject path included. *)
Lemma stdio_enforce_limit_leaves_errno (rolname : string) (w : world) :
  leaves_errno (errno w) (Stdio.enforce_limit rolname w).
Proof.
  unfold Stdio.enforce_limit.
  destruct (connlimitDirectory w) as [dir|]; [|reflexivity].
  destruct (negb (OidIsValid (get_role_oid w rolname))); [reflexivity|].
  destruct (negb (Stdio.strspn rolname Stdio.accept_set =? strlen rolname));
    [reflexivity|].
  cbv zeta.
  destruct (Stdio.AllocateFile_r _ _) as [[fp|] w1]; [|reflexivity].
  destruct (Stdio.fscanf_d fp w1) as [[ret stored] w2].
  destruct (negb (ret =? 1)); [reflexivity|].
  match goal with |- context [if ?c then _ else _] => destruct c end;
    reflexivity.
Qed.

(** * Further properties of the code *)

(** ** The read loop, event by event *)

Lemma first_read_errno (script : list read_event) (e : Z) :
  first_read script = inl e -> e <> 0 /\ e <> EAGAIN.
Proof.
  induction script as [|[x|k] rest IH]; cbn [first_read]; try discriminate.
  destruct (Z.pos x =? EAGAIN) eqn:E; [exact IH|].
  intro H. injection H as <-. apply Z.eqb_neq in E. split; [discriminate|exact E].
Qed.

(** The loop on an empty buffer: failures with EAGAIN are skipped, the first
    other failure ends the loop with that error and nothing stored, the
    first read that succeeds ends it with the bytes of that one read. *)
Lemma read_retry_outcome (fd remaining : Z) (content : string) :
  0 < remaining ->
  forall script w,
    read_script w = script ->
    opened w = Some (fd, content) ->
    exists limitBuf w1 unread,
      read_retry (S (List.length script)) fd remaining initStringInfo w
      = Some (limitBuf, w1) /\
      same_env w w1 /\
      grows not_alloc w w1 /\
      opened w1 = Some (fd, unread) /\
      maxlen limitBuf = StringInfo_initial_size /\
      match first_read script with
      | inl e => errno w1 = e /\ limitBuf = initStringInfo
      | inr cap =>
          errno w1 = 0 /\
          data limitBuf = take_bytes (read_size remaining cap content) content /\
          len limitBuf = Z.of_nat (read_size remaining cap content)
      end.
Proof.
  intros Hrem. induction script as [|ev rest IH]; intros w Hs Ho.
  - rewrite read_retry_eq. unfold sys_read.
    change (len initStringInfo) with 0. rewrite Z.sub_0_r.
    change (read_script (log (Read fd remaining) (set_errno 0 w)))
      with (read_script w).
    rewrite Hs. unfold deliver.
    change (opened (log (Read fd remaining) (set_errno 0 w))) with (opened w).
    rewrite Ho, Z.eqb_refl. cbv zeta.
    cbn [errno set_opened set_errno log]. change (0 =? EAGAIN) with false.
    cbn [andb first_read read_size].
    set (n := Nat.min (Z.to_nat remaining) (String.length content)).
    eexists. eexists. eexists. split; [reflexivity|].
    split; [frame|]. split.
    { exists [Read fd remaining]. split; reflexivity. }
    split; [reflexivity|].
    destruct n as [|n'].
    + change (0 <? Z.of_nat 0) with false. cbv iota.
      rewrite take_bytes_0. repeat split.
    + replace (0 <? Z.of_nat (S n')) with true
        by (symmetry; apply Z.ltb_lt; lia).
      repeat split.
  - destruct ev as [e|k].
    + cbn [List.length]. rewrite read_retry_eq. unfold sys_read.
      change (len initStringInfo) with 0. rewrite Z.sub_0_r.
      change (read_script (log (Read fd remaining) (set_errno 0 w)))
        with (read_script w).
      rewrite Hs. cbv zeta beta iota.
      change (0 <? -1) with false. cbv iota.
      cbn [errno set_errno]. cbn [first_read].
      change (len initStringInfo <? remaining) with (0 <? remaining).
      replace (0 <? remaining) with true by (symmetry; apply Z.ltb_lt; lia).
      rewrite andb_true_r.
      destruct (Z.pos e =? EAGAIN) eqn:E.
      * match goal with |- context [read_retry _ _ _ _ ?w0] =>
          destruct (IH w0 eq_refl Ho) as (lb & w1 & u & R & F & G & O & M & C);
          exists lb, w1, u; split; [exact R|]; split;
          [eapply same_env_trans; [|exact F]; frame|]
        end.
        split; [|auto].
        destruct G as (l & Hl & Hp).
        exists (Read fd remaining :: l). split.
        { rewrite Hl. cbn [calls set_errno set_read_script log].
          now rewrite <- app_assoc. }
        { cbn [forallb not_alloc andb]. exact Hp. }
      * eexists. eexists. eexists. split; [reflexivity|].
        split; [frame|]. split.
        { exists [Read fd remaining]. split; reflexivity. }
        split; [exact Ho|]. repeat split.
    + cbn [List.length]. rewrite read_retry_eq. unfold sys_read.
      change (len initStringInfo) with 0. rewrite Z.sub_0_r.
      change (read_script (log (Read fd remaining) (set_errno 0 w)))
        with (read_script w).
      rewrite Hs. unfold deliver.
      change (opened (set_read_script rest
                        (log (Read fd remaining) (set_errno 0 w))))
        with (opened w).
      rewrite Ho, Z.eqb_refl. cbv zeta.
      cbn [errno set_opened set_errno set_read_script log].
      change (0 =? EAGAIN) with false.
      cbn [andb first_read read_size].
      set (n := Nat.min (Z.to_nat (Z.min remaining (Z.pos k)))
                  (String.length content)).
      eexists. eexists. eexists. split; [reflexivity|].
      split; [frame|]. split.
      { exists [Read fd remaining]. split; reflexivity. }
      split; [reflexivity|].
      destruct n as [|n'].
      * change (0 <? Z.of_nat 0) with false. cbv iota.
        rewrite take_bytes_0. repeat split.
      * replace (0 <? Z.of_nat (S n')) with true
          by (symmetry; apply Z.ltb_lt; lia).
        repeat split.
Qed.

Lemma read_size_le (count : Z) (cap : option positive) (content : string) :
  0 <= count -> Z.of_nat (read_size count cap content) <= count.
Proof. intro H. unfold read_size. destruct cap; lia. Qed.

Lemma sys_close_opened (fd : Z) (w : world) (unread : string) :
  opened w = Some (fd, unread) -> opened (sys_close fd w) = None.
Proof.
  intro H. unfold sys_close.
  change (opened (log (Close fd) w)) with (opened w).
  rewrite H, Z.eqb_refl. reflexivity.
Qed.

Lemma cleanup_opened_closes (fd save_errno : Z) (w : world) (unread : string) :
  opened w = Some (fd, unread) ->
  exists w',
    cleanup_opened fd save_errno w = Returned w' /\
    errno w' = save_errno /\
    opened w' = None.
Proof.
  intro H. unfold cleanup_opened, cleanup. eexists. split; [reflexivity|].
  split; [reflexivity|].
  cbn [opened set_errno log].
  apply (sys_close_opened fd (log (Pfree LimitBuf) w) unread). exact H.
Qed.

(** The function up to the successful [open]: the state then has errno
    clear and the file behind the descriptor, and the rest of the function
    is [read_and_check] on it. *)
Lemma enforce_limit_after_open (rolname dir content : string) (w : world) :
  connlimitDirectory w = Some dir ->
  OidIsValid (get_role_oid w rolname) = true ->
  isalphanum rolname = true ->
  fs w (limit_path dir rolname) = inr content ->
  exists w1,
    same_env w w1 /\
    errno w1 = 0 /\
    opened w1 = Some (free_fd w, content) /\
    read_script w1 = read_script w /\
    calls w1 = (calls w ++ path_calls dir rolname
                  ++ repeat (Open (limit_path dir rolname))
                       (S (open_eagain w)))%list /\
    enforce_limit rolname w
    = read_and_check rolname (get_role_oid w rolname) (free_fd w) (errno w) w1 /\
    limit_source_content rolname w
    = match read_retry (read_fuel (log (InitStringInfo LimitBuf) w1))
              (free_fd w) (StringInfo_initial_size - sizeof_char_constant)
              initStringInfo (log (InitStringInfo LimitBuf) w1) with
      | None => None
      | Some (limitBuf, w3) =>
          if (errno w3 =? 0) && negb (len limitBuf =? maxlen limitBuf)
          then Some (data limitBuf)
          else None
      end.
Proof.
  intros Hdir Hoid Hname Hfs.
  unfold enforce_limit, limit_source_content.
  rewrite Hdir, Hoid, Hname. cbn [negb andb].
  rewrite build_path_spec.
  set (w0 := log _ (log _ (log _ (log _ w)))).
  pose proof (open_retry_steady (limit_path dir rolname) (open_eagain w0) w0
                eq_refl) as S.
  change (fs w0 (limit_path dir rolname)) with (fs w (limit_path dir rolname)) in S.
  rewrite Hfs in S.
  destruct S as (w1 & H1 & H2 & H3 & H4 & H5).
  unfold open_fuel. rewrite H1, H2. cbn [Z.eqb negb].
  exists w1. split.
  { eapply same_env_trans; [|apply (open_retry_frame _ _ _ _ _ H1)].
    subst w0. frame. }
  split; [exact H2|]. split; [exact H3|]. split; [exact H4|].
  split.
  { rewrite H5. subst w0. cbn [calls log open_eagain]. unfold path_calls.
    rewrite <- !app_assoc. reflexivity. }
  split; reflexivity.
Qed.

(** X1. The bytes handed to the parser are those of the first [read] that
    succeeds: failures with EAGAIN before it are skipped, any other failure
    hands over nothing, and a read that returns fewer bytes than the file
    holds is not followed by another. *)
Theorem parser_receives_first_read (rolname dir content : string) (w : world) :
  connlimitDirectory w = Some dir ->
  OidIsValid (get_role_oid w rolname) = true ->
  isalphanum rolname = true ->
  fs w (limit_path dir rolname) = inr content ->
  limit_source_content rolname w
  = match first_read (read_script w) with
    | inl _ => None
    | inr cap => Some (take_bytes (read_size 1020 cap content) content)
    end.
Proof.
  intros Hdir Hoid Hname Hfs.
  destruct (enforce_limit_after_open _ _ _ _ Hdir Hoid Hname Hfs)
    as (w1 & _ & _ & Ho & Hs & _ & _ & ->).
  destruct (read_retry_outcome (free_fd w)
              (StringInfo_initial_size - sizeof_char_constant) content
              eq_refl (read_script w) (log (InitStringInfo LimitBuf) w1) Hs Ho)
    as (lb & w3 & u & R & _ & _ & _ & M & C).
  unfold read_fuel.
  change (read_script (log (InitStringInfo LimitBuf) w1)) with (read_script w1).
  rewrite Hs, R.
  change (StringInfo_initial_size - sizeof_char_constant) with 1020 in C.
  destruct (first_read (read_script w)) as [e|cap] eqn:F.
  - destruct C as [E _]. apply first_read_errno in F.
    rewrite E. destruct F as [F _]. apply Z.eqb_neq in F. now rewrite F.
  - destruct C as (E & D & L). rewrite E, D, L, M. cbn [Z.eqb andb].
    pose proof (read_size_le 1020 cap content ltac:(lia)) as B.
    replace (Z.of_nat (read_size 1020 cap content) =? StringInfo_initial_size)
      with false; [reflexivity|].
    symmetry. apply Z.eqb_neq. unfold StringInfo_initial_size. lia.
Qed.

Lemma parser_receives_first_read_witness :
  limit_source_content "arolename"
    (set_read_script [ReadFails 11; ReadShort 1]
       (sample_world (Some "/srv/limits") "/srv/limits/arolename"
          "100" 5 false))
  = Some "1".
Proof.
  exact (parser_receives_first_read "arolename" "/srv/limits" "100"
           (set_read_script [ReadFails 11; ReadShort 1]
              (sample_world (Some "/srv/limits") "/srv/limits/arolename"
                 "100" 5 false))
           eq_refl eq_refl eq_refl eq_refl).
Defined.

(** X2. A [read] that fails with an error other than EAGAIN is not
    enforced: the function returns, the descriptor is closed and errno is
    as on entry. *)
Theorem read_failure_admits (rolname dir content : string) (w : world) (e : Z) :
  connlimitDirectory w = Some dir ->
  OidIsValid (get_role_oid w rolname) = true ->
  isalphanum rolname = true ->
  fs w (limit_path dir rolname) = inr content ->
  first_read (read_script w) = inl e ->
  exists w',
    enforce_limit rolname w = Returned w' /\
    errno w' = errno w /\
    opened w' = None.
Proof.
  intros Hdir Hoid Hname Hfs Hf.
  destruct (enforce_limit_after_open _ _ _ _ Hdir Hoid Hname Hfs)
    as (w1 & _ & _ & Ho & Hs & _ & -> & _).
  unfold read_and_check.
  change (maxlen initStringInfo - sizeof_char_constant)
    with (StringInfo_initial_size - sizeof_char_constant).
  destruct (read_retry_outcome (free_fd w)
              (StringInfo_initial_size - sizeof_char_constant) content
              eq_refl (read_script w) (log (InitStringInfo LimitBuf) w1) Hs Ho)
    as (lb & w3 & u & R & _ & _ & O & _ & C).
  unfold read_fuel.
  change (read_script (log (InitStringInfo LimitBuf) w1)) with (read_script w1).
  rewrite Hs, R. rewrite Hf in C. destruct C as [E _].
  apply first_read_errno in Hf. destruct Hf as [Hf _].
  rewrite E. apply Z.eqb_neq in Hf. rewrite Hf. cbn [negb orb].
  apply (cleanup_opened_closes _ _ _ _ O).
Qed.

Lemma read_failure_admits_witness :
  exists w',
    enforce_limit "arolename"
      (set_read_script [ReadFails 11; ReadFails 5]
         (set_errno 4 (sample_world (Some "/srv/limits")
                         "/srv/limits/arolename" "0" 5 false)))
    = Returned w' /\
    errno w' = 4 /\
    opened w' = None.
Proof.
  exact (read_failure_admits "arolename" "/srv/limits" "0"
           (set_read_script [ReadFails 11; ReadFails 5]
              (set_errno 4 (sample_world (Some "/srv/limits")
                              "/srv/limits/arolename" "0" 5 false)))
           5 eq_refl eq_refl eq_refl eq_refl eq_refl).
Defined.

(** ** The calls the function makes *)

Lemma sys_open_calls (path : string) (w : world) :
  calls (snd (sys_open path w)) = (calls w ++ [Open path])%list.
Proof.
  unfold sys_open.
  destruct (open_eagain (log (Open path) w)); [|reflexivity].
  destruct (fs (log (Open path) w) path); reflexivity.
Qed.

Lemma deliver_calls (fd count : Z) (w : world) :
  calls (snd (deliver fd count w)) = calls w.
Proof.
  unfold deliver. destruct (opened w) as [[fd' unread]|]; [|reflexivity].
  destruct (fd' =? fd); reflexivity.
Qed.

Lemma sys_read_calls (fd count : Z) (w : world) :
  calls (snd (sys_read fd count w)) = (calls w ++ [Read fd count])%list.
Proof.
  unfold sys_read.
  destruct (read_script (log (Read fd count) w)) as [|[e|k] rest].
  - now rewrite deliver_calls.
  - reflexivity.
  - now rewrite deliver_calls.
Qed.

Lemma sys_close_calls (fd : Z) (w : world) :
  calls (sys_close fd w) = (calls w ++ [Close fd])%list.
Proof.
  unfold sys_close.
  destruct (opened (log (Close fd) w)) as [[fd' unread]|]; [|reflexivity].
  destruct (fd' =? fd); reflexivity.
Qed.

Lemma strtol_calls (nptr : string) (w : world) :
  calls (snd (strtol nptr w)) = calls w.
Proof.
  unfold strtol.
  destruct (strtol_result (strtol_einval w) nptr) as [v [e|]]; reflexivity.
Qed.

Lemma strtol_opened (nptr : string) (w : world) :
  opened (snd (strtol nptr w)) = opened w.
Proof.
  unfold strtol.
  destruct (strtol_result (strtol_einval w) nptr) as [v [e|]]; reflexivity.
Qed.

Lemma deliver_opened (fd count : Z) (w : world) (unread : string) :
  opened w = Some (fd, unread) ->
  exists unread', opened (snd (deliver fd count w)) = Some (fd, unread').
Proof.
  intro H. unfold deliver. rewrite H, Z.eqb_refl. cbn [snd opened set_opened].
  eauto.
Qed.

Lemma sys_read_opened (fd count : Z) (w : world) (unread : string) :
  opened w = Some (fd, unread) ->
  exists unread', opened (snd (sys_read fd count w)) = Some (fd, unread').
Proof.
  intro H. unfold sys_read.
  destruct (read_script (log (Read fd count) w)) as [|[e|k] rest].
  - apply (deliver_opened _ _ _ unread). exact H.
  - cbn [snd opened set_errno set_read_script log]. eauto.
  - apply (deliver_opened _ _ _ unread). exact H.
Qed.

(** The read loop keeps the descriptor open, and logs only reads on it
    that ask for between 0 and [remaining] bytes. *)
Lemma read_retry_protocol (fd remaining : Z) :
  forall fuel limitBuf w limitBuf1 w1 unread,
    read_retry fuel fd remaining limitBuf w = Some (limitBuf1, w1) ->
    0 <= len limitBuf <= remaining ->
    opened w = Some (fd, unread) ->
    (exists unread', opened w1 = Some (fd, unread')) /\
    exists reads,
      calls w1 = (calls w ++ reads)%list /\
      forallb (bounded_read fd remaining) reads = true.
Proof.
  induction fuel as [|fuel IH]; intros limitBuf w limitBuf1 w1 unread;
    [discriminate|].
  rewrite read_retry_eq.
  pose proof (sys_read_props fd (remaining - len limitBuf) (set_errno 0 w)) as P.
  pose proof (sys_read_calls fd (remaining - len limitBuf) (set_errno 0 w)) as C.
  pose proof (sys_read_opened fd (remaining - len limitBuf) (set_errno 0 w)) as O.
  destruct (sys_read fd (remaining - len limitBuf) (set_errno 0 w))
    as [[n bytes] w0].
  destruct P as (Hn & _ & _). cbn [snd] in C, O. cbv zeta.
  change (calls (set_errno 0 w)) with (calls w) in C.
  change (opened (set_errno 0 w)) with (opened w) in O.
  intros H Hb Ho. destruct (O unread Ho) as [u0 Ho0].
  assert (E : bounded_read fd remaining (Read fd (remaining - len limitBuf))
              = true).
  { unfold bounded_read. rewrite Z.eqb_refl. cbn [andb].
    apply andb_true_intro. split; apply Z.leb_le; lia. }
  match type of H with (if ?c then _ else _) = _ => destruct c end.
  - apply (IH _ _ _ _ u0) in H; [| |exact Ho0].
    + destruct H as (Hu & reads & Hr & Hp). split; [exact Hu|].
      exists (Read fd (remaining - len limitBuf) :: reads). split.
      * rewrite Hr, C, <- app_assoc. reflexivity.
      * cbn [forallb]. now rewrite E, Hp.
    + destruct (0 <? n) eqn:En; cbn [len]; [|lia].
      apply Z.ltb_lt in En. lia.
  - injection H as <- <-. split; [eauto|].
    exists [Read fd (remaining - len limitBuf)]. split; [exact C|].
    cbn [forallb]. now rewrite E.
Qed.

Lemma cleanup_opened_calls (fd save_errno : Z) (w : world) (unread : string) :
  opened w = Some (fd, unread) ->
  exists w',
    cleanup_opened fd save_errno w = Returned w' /\
    calls w' = (calls w ++ [Pfree LimitBuf; Close fd; Pfree PathBuf])%list /\
    opened w' = None.
Proof.
  intro H. unfold cleanup_opened, cleanup. eexists. split; [reflexivity|].
  cbn [calls opened set_errno log]. split.
  - rewrite sys_close_calls. cbn [calls log]. rewrite <- !app_assoc.
    reflexivity.
  - apply (sys_close_opened fd (log (Pfree LimitBuf) w) unread). exact H.
Qed.

(** The calls from [initStringInfo(&limitBuf)] on, with the descriptor
    open: the buffer, reads within the bound, and either the three
    releases (return) or nothing more (FATAL). *)
Lemma read_and_check_calls (rolname : string) (roleid fd save_errno : Z)
  (w : world) (unread : string) :
  opened w = Some (fd, unread) ->
  match read_and_check rolname roleid fd save_errno w with
  | Diverges => True
  | Returned w' =>
      exists reads,
        forallb (bounded_read fd 1020) reads = true /\
        calls w' = (calls w ++ [InitStringInfo LimitBuf] ++ reads
                      ++ [Pfree LimitBuf; Close fd; Pfree PathBuf])%list /\
        opened w' = None
  | Fatal c m w' =>
      exists reads,
        forallb (bounded_read fd 1020) reads = true /\
        calls w' = (calls w ++ [InitStringInfo LimitBuf] ++ reads)%list /\
        (exists unread', opened w' = Some (fd, unread')) /\
        c = ERRCODE_TOO_MANY_CONNECTIONS /\
        m = too_many_connections_message rolname
  end.
Proof.
  intro Ho. unfold read_and_check.
  change (maxlen initStringInfo - sizeof_char_constant) with 1020.
  destruct (read_retry _ fd 1020 initStringInfo _) as [[limitBuf w1]|] eqn:R;
    [|exact I].
  apply (read_retry_protocol _ _ _ _ _ _ _ unread) in R;
    [|cbn; lia|exact Ho].
  destruct R as ([u1 Ho1] & reads & Hc & Hp).
  change (calls (log (InitStringInfo LimitBuf) w))
    with (calls w ++ [InitStringInfo LimitBuf])%list in Hc.
  assert (Release : forall w2,
             calls w2 = calls w1 -> opened w2 = opened w1 ->
             match cleanup_opened fd save_errno w2 with
             | Returned w' =>
                 exists reads,
                   forallb (bounded_read fd 1020) reads = true /\
                   calls w' = (calls w ++ [InitStringInfo LimitBuf] ++ reads
                                 ++ [Pfree LimitBuf; Close fd; Pfree PathBuf])%list /\
                   opened w' = None
             | _ => False
             end).
  { intros w2 Hc2 Ho2. rewrite Ho1 in Ho2.
    destruct (cleanup_opened_calls fd save_errno w2 u1 Ho2)
      as (w' & -> & Hc' & Ho').
    exists reads. split; [exact Hp|]. split; [|exact Ho'].
    rewrite Hc', Hc2, Hc, <- !app_assoc. reflexivity. }
  destruct (negb (errno w1 =? 0) || (len limitBuf =? maxlen limitBuf)).
  - specialize (Release w1 eq_refl eq_refl).
    destruct (cleanup_opened fd save_errno w1); [exact Release|contradiction..].
  - unfold parse_and_check.
    pose proof (strtol_calls (data (terminate limitBuf)) w1) as Sc.
    pose proof (strtol_opened (data (terminate limitBuf)) w1) as So.
    destruct (strtol (data (terminate limitBuf)) w1) as [limit w2].
    cbn [snd] in Sc, So.
    destruct (negb (errno w2 =? 0)).
    + specialize (Release w2 Sc So).
      destruct (cleanup_opened fd save_errno w2);
        [exact Release|contradiction..].
    + unfold check_quota.
      destruct (Z.of_nat (CountUserBackends w2 roleid) >=? limit).
      * exists reads. split; [exact Hp|].
        cbn [calls opened set_errno]. split.
        { rewrite Sc, Hc, <- !app_assoc. reflexivity. }
        split; [|split; reflexivity].
        exists u1. now rewrite So.
      * specialize (Release w2 Sc So).
        destruct (cleanup_opened fd save_errno w2);
          [exact Release|contradiction..].
Qed.

(** The calls of the whole function.  Either it makes none, or it builds
    the path, opens it (once more per EAGAIN) and then releases the path
    buffer, or goes on as in [read_and_check_calls]. *)
Lemma enforce_limit_calls (rolname : string) (w : world) :
  match enforce_limit rolname w with
  | Diverges => True
  | Returned w' =>
      w' = w \/
      exists dir,
        connlimitDirectory w = Some dir /\
        isalphanum rolname = true /\
        ((calls w' = (calls w ++ path_calls dir rolname
                        ++ repeat (Open (limit_path dir rolname))
                             (S (open_eagain w))
                        ++ [Pfree PathBuf])%list /\
          opened w' = opened w) \/
         (exists reads,
             forallb (bounded_read (free_fd w) 1020) reads = true /\
             calls w' = (calls w ++ path_calls dir rolname
                           ++ repeat (Open (limit_path dir rolname))
                                (S (open_eagain w))
                           ++ [InitStringInfo LimitBuf] ++ reads
                           ++ [Pfree LimitBuf; Close (free_fd w); Pfree PathBuf])%list /\
             opened w' = None))
  | Fatal c m w' =>
      exists dir reads,
        connlimitDirectory w = Some dir /\
        isalphanum rolname = true /\
        forallb (bounded_read (free_fd w) 1020) reads = true /\
        calls w' = (calls w ++ path_calls dir rolname
                      ++ repeat (Open (limit_path dir rolname))
                           (S (open_eagain w))
                      ++ [InitStringInfo LimitBuf] ++ reads)%list /\
        (exists unread, opened w' = Some (free_fd w, unread)) /\
        c = ERRCODE_TOO_MANY_CONNECTIONS /\
        m = too_many_connections_message rolname
  end.
Proof.
  unfold enforce_limit.
  destruct (connlimitDirectory w) as [dir|] eqn:Hdir; [|now left].
  destruct (negb (OidIsValid (get_role_oid w rolname))); [now left|].
  destruct (isalphanum rolname) eqn:Hname; cbn [negb]; [|now left].
  rewrite build_path_spec.
  set (w0 := log _ (log _ (log _ (log _ w)))).
  pose proof (open_retry_steady (limit_path dir rolname) (open_eagain w0) w0
                eq_refl) as S.
  change (fs w0 (limit_path dir rolname)) with (fs w (limit_path dir rolname)) in S.
  change (free_fd w0) with (free_fd w) in S.
  change (opened w0) with (opened w) in S.
  change (open_eagain w0) with (open_eagain w) in S.
  assert (Hc0 : calls w0 = (calls w ++ path_calls dir rolname)%list).
  { subst w0. cbn [calls log]. unfold path_calls.
    rewrite <- !app_assoc. reflexivity. }
  rewrite Hc0 in S.
  unfold open_fuel. change (open_eagain w0) with (open_eagain w).
  destruct (fs w (limit_path dir rolname)) as [e|content].
  - destruct (Z.pos e =? EAGAIN); [now rewrite S|].
    destruct S as (w1 & -> & H2 & H3 & _ & H5).
    rewrite H2. cbn [Z.eqb negb]. unfold cleanup.
    right. exists dir. split; [reflexivity|]. split; [reflexivity|]. left.
    cbn [calls opened set_errno log]. split; [|exact H3].
    rewrite H5, <- !app_assoc. reflexivity.
  - destruct S as (w1 & -> & H2 & H3 & _ & H5).
    rewrite H2. cbn [Z.eqb negb].
    pose proof (read_and_check_calls rolname (get_role_oid w rolname)
                  (free_fd w) (errno w0) w1 content H3) as R.
    destruct (read_and_check rolname (get_role_oid w rolname) (free_fd w)
                (errno w0) w1) as [w'|c m w'|]; [| |exact I].
    + destruct R as (reads & Hp & Hc & Ho).
      right. exists dir. split; [reflexivity|]. split; [reflexivity|]. right.
      exists reads. split; [exact Hp|]. split; [|exact Ho].
      rewrite Hc, H5, <- !app_assoc. reflexivity.
    + destruct R as (reads & Hp & Hc & Ho & -> & ->).
      exists dir, reads. split; [reflexivity|]. split; [reflexivity|].
      split; [exact Hp|]. split; [|split; [exact Ho|split; reflexivity]].
      rewrite Hc, H5, <- !app_assoc. reflexivity.
Qed.

(** ** Resources *)

Lemma held_app (b : buffer) (l1 l2 : list call) :
  held b (l1 ++ l2)%list = held b l1 + held b l2.
Proof.
  induction l1 as [|c l1 IH]; [reflexivity|].
  cbn [app held]. destruct c; rewrite ?IH; lia.
Qed.

Lemma held_opens (b : buffer) (path : string) (n : nat) :
  held b (repeat (Open path) n) = 0.
Proof. induction n as [|n IH]; [reflexivity|exact IH]. Qed.

Lemma held_reads (b : buffer) (fd bound : Z) (reads : list call) :
  forallb (bounded_read fd bound) reads = true -> held b reads = 0.
Proof.
  induction reads as [|c reads IH]; [reflexivity|].
  cbn [forallb]. intro H. apply andb_prop in H. destruct H as [Hc Hr].
  destruct c; try discriminate Hc. cbn [held]. now apply IH.
Qed.

(** X3. Whenever the function returns, it has released what it acquired:
    each buffer has as many [pfree] as [initStringInfo] calls, and a
    process that entered without the descriptor open leaves without it. *)
Theorem returns_release_everything (rolname : string) (w w' : world) :
  enforce_limit rolname w = Returned w' ->
  held PathBuf (calls w') = held PathBuf (calls w) /\
  held LimitBuf (calls w') = held LimitBuf (calls w) /\
  (opened w = None -> opened w' = None).
Proof.
  intro H. pose proof (enforce_limit_calls rolname w) as C. rewrite H in C.
  destruct C as [->|(dir & _ & _ & [[Hc Ho]|(reads & Hp & Hc & Ho)])].
  - auto.
  - rewrite Hc, Ho, !held_app, !held_opens.
    repeat split; cbn; (lia || auto).
  - rewrite Hc, Ho, !held_app, !held_opens,
      !(held_reads _ _ _ _ Hp).
    repeat split; cbn; lia.
Qed.

Lemma returns_release_everything_witness :
  exists w',
    enforce_limit "arolename"
      (sample_world (Some "/srv/limits") "/srv/limits/arolename" "10" 9 false)
    = Returned w' /\
    held PathBuf (calls w') = 0 /\
    held LimitBuf (calls w') = 0 /\
    opened w' = None.
Proof.
  set (w := sample_world (Some "/srv/limits") "/srv/limits/arolename"
              "10" 9 false).
  destruct (enforce_limit "arolename" w) as [w'| |] eqn:E;
    [|vm_compute in E; discriminate E..].
  exists w'. split; [reflexivity|].
  destruct (returns_release_everything "arolename" w w' E) as (A & B & C).
  split; [exact A|]. split; [exact B|]. apply C. reflexivity.
Defined.

(** ** The path that is opened *)

Lemma opened_paths_app (l1 l2 : list call) :
  opened_paths (l1 ++ l2)%list = (opened_paths l1 ++ opened_paths l2)%list.
Proof.
  induction l1 as [|c l1 IH]; [reflexivity|].
  cbn [app opened_paths]. destruct c; rewrite ?IH; reflexivity.
Qed.

Lemma opened_paths_opens (path : string) (n : nat) :
  opened_paths (repeat (Open path) n) = repeat path n.
Proof. induction n as [|n IH]; [reflexivity|]. cbn. now rewrite IH. Qed.

Lemma opened_paths_reads (fd bound : Z) (reads : list call) :
  forallb (bounded_read fd bound) reads = true -> opened_paths reads = [].
Proof.
  induction reads as [|c reads IH]; [reflexivity|].
  cbn [forallb]. intro H. apply andb_prop in H. destruct H as [Hc Hr].
  destruct c; try discriminate Hc. cbn [opened_paths]. now apply IH.
Qed.

(** X4. The only path the function ever passes to [open] is the directory,
    a slash and the role name, and only for a name that passed the
    validator: the component after the slash is not empty and holds
    nothing but letters and digits. *)
Theorem only_the_role_file_is_opened (rolname : string) (w : world) :
  enforce_limit rolname w <> Diverges ->
  exists l,
    final_calls (enforce_limit rolname w) = (calls w ++ l)%list /\
    forall q, In q (opened_paths l) ->
      exists dir,
        connlimitDirectory w = Some dir /\
        q = c_str dir ++ "/" ++ c_str rolname /\
        valid_identifier (c_str rolname) = true.
Proof.
  intro Hd. pose proof (enforce_limit_calls rolname w) as C.
  destruct (enforce_limit rolname w) as [w'|c m w'|]; [| |congruence];
    cbn [final_calls].
  - destruct C as [->|(dir & Hdir & Hname & [[Hc Ho]|(reads & Hp & Hc & Ho)])].
    + exists []. split; [now rewrite app_nil_r|]. intros q [].
    + eexists. split; [exact Hc|]. intros q Hq.
      rewrite !opened_paths_app, opened_paths_opens in Hq.
      cbn [path_calls opened_paths app] in Hq. rewrite app_nil_r in Hq.
      apply repeat_spec in Hq. exists dir.
      split; [exact Hdir|]. split; [exact Hq|].
      now rewrite <- isalphanum_spec.
    + eexists. split; [exact Hc|]. intros q Hq.
      rewrite !opened_paths_app, opened_paths_opens,
        (opened_paths_reads _ _ _ Hp) in Hq.
      cbn [path_calls opened_paths app] in Hq. rewrite app_nil_r in Hq.
      apply repeat_spec in Hq. exists dir.
      split; [exact Hdir|]. split; [exact Hq|].
      now rewrite <- isalphanum_spec.
  - destruct C as (dir & reads & Hdir & Hname & Hp & Hc & _).
    eexists. split; [exact Hc|]. intros q Hq.
    rewrite !opened_paths_app, opened_paths_opens,
      (opened_paths_reads _ _ _ Hp) in Hq.
    cbn [path_calls opened_paths app] in Hq. rewrite app_nil_r in Hq.
    apply repeat_spec in Hq. exists dir.
    split; [exact Hdir|]. split; [exact Hq|].
    now rewrite <- isalphanum_spec.
Qed.

Lemma only_the_role_file_is_opened_witness :
  exists l,
    final_calls
      (enforce_limit "arolename"
         (sample_world (Some "/srv/limits") "/srv/limits/arolename"
            "10" 10 false))
    = (calls (sample_world (Some "/srv/limits") "/srv/limits/arolename"
                "10" 10 false) ++ l)%list /\
    forall q, In q (opened_paths l) ->
      exists dir,
        connlimitDirectory
          (sample_world (Some "/srv/limits") "/srv/limits/arolename"
             "10" 10 false) = Some dir /\
        q = c_str dir ++ "/" ++ c_str "arolename" /\
        valid_identifier (c_str "arolename") = true.
Proof.
  apply (only_the_role_file_is_opened "arolename"
           (sample_world (Some "/srv/limits") "/srv/limits/arolename"
              "10" 10 false)).
  vm_compute. discriminate.
Defined.

(** ** Rejection *)

(** A FATAL outcome is reached only past every earlier stage. *)
Lemma fatal_reaches_parser (rolname : string) (w : world) (c m : string)
  (w' : world) :
  enforce_limit rolname w = Fatal c m w' ->
  exists b, limit_source_content rolname w = Some b.
Proof.
  unfold enforce_limit, limit_source_content.
  destruct (connlimitDirectory w) as [dir|]; [|discriminate].
  destruct (OidIsValid (get_role_oid w rolname)); cbn [negb andb];
    [|discriminate].
  destruct (isalphanum rolname); cbn [negb]; [|discriminate].
  destruct (build_path dir rolname w) as [path w0].
  destruct (open_retry (open_fuel w0) path w0) as [[fd w1]|]; [|discriminate].
  destruct (errno w1 =? 0); cbn [negb]; [|discriminate].
  unfold read_and_check.
  change (maxlen initStringInfo - sizeof_char_constant)
    with (StringInfo_initial_size - sizeof_char_constant).
  destruct (read_retry _ fd _ initStringInfo _) as [[limitBuf w3]|];
    [|discriminate].
  destruct (errno w3 =? 0); cbn [negb orb andb]; [|discriminate].
  destruct (len limitBuf =? maxlen limitBuf); cbn [negb]; [discriminate|].
  eauto.
Qed.

(** X5. The backend is ended only when every stage succeeded: the file was
    read, its bytes converted without error to a limit, and the live count
    has reached that limit.  The report then carries SQLSTATE 53300 and the
    role name, and errno is as on entry. *)
Theorem rejection_only_from_a_parsed_limit (rolname : string) (w : world)
  (c m : string) (w' : world) :
  enforce_limit rolname w = Fatal c m w' ->
  c = ERRCODE_TOO_MANY_CONNECTIONS /\
  m = too_many_connections_message rolname /\
  errno w' = errno w /\
  exists b limit,
    limit_source_content rolname w = Some b /\
    strtol_result (strtol_einval w) b = (limit, None) /\
    limit <= Z.of_nat (CountUserBackends w (get_role_oid w rolname)).
Proof.
  intro H.
  pose proof (enforce_limit_calls rolname w) as C. rewrite H in C.
  destruct C as (_ & _ & _ & _ & _ & _ & _ & -> & ->).
  pose proof (enforce_limit_leaves_errno rolname w) as E. rewrite H in E.
  split; [reflexivity|]. split; [reflexivity|]. split; [exact E|].
  destruct (fatal_reaches_parser _ _ _ _ _ H) as [b Hb].
  pose proof (enforce_limit_decision _ _ _ Hb) as D. rewrite H in D.
  cbn [rejects admits] in D.
  change (String.eqb ERRCODE_TOO_MANY_CONNECTIONS ERRCODE_TOO_MANY_CONNECTIONS)
    with true in D.
  destruct (strtol_result (strtol_einval w) b) as [limit [e|]] eqn:P.
  - destruct D as [D _]. discriminate D.
  - destruct D as [D _]. exists b, limit. split; [exact Hb|].
    split; [exact P|]. apply Z.geb_le. now symmetry.
Qed.

Lemma rejection_only_from_a_parsed_limit_witness :
  exists b limit,
    limit_source_content "arolename"
      (sample_world (Some "/srv/limits") "/srv/limits/arolename"
         "3 at most" 4 false) = Some b /\
    strtol_result false b = (limit, None) /\
    limit <= 4.
Proof.
  set (w := sample_world (Some "/srv/limits") "/srv/limits/arolename"
              "3 at most" 4 false).
  destruct (enforce_limit "arolename" w) as [|c m w'|] eqn:E;
    [vm_compute in E; discriminate E| |vm_compute in E; discriminate E].
  destruct (rejection_only_from_a_parsed_limit "arolename" w c m w' E)
    as (_ & _ & _ & b & limit & Hb & Hp & Hl).
  exists b, limit. split; [exact Hb|]. split; [exact Hp|exact Hl].
Defined.

(** ** Termination *)

Lemma unknown_role_returns (rolname : string) (w : world) :
  OidIsValid (get_role_oid w rolname) = false ->
  enforce_limit rolname w = Returned w.
Proof.
  intro H. unfold enforce_limit.
  destruct (connlimitDirectory w); [|reflexivity].
  now rewrite H.
Qed.

Lemma persistent_eagain_diverges (rolname dir : string) (w : world) :
  connlimitDirectory w = Some dir ->
  OidIsValid (get_role_oid w rolname) = true ->
  isalphanum rolname = true ->
  fs w (limit_path dir rolname) = inl 11%positive ->
  enforce_limit rolname w = Diverges.
Proof.
  intros Hdir Hoid Hname Hfs.
  unfold enforce_limit. rewrite Hdir, Hoid, Hname. cbn [negb].
  rewrite build_path_spec.
  set (w0 := log _ (log _ (log _ (log _ w)))).
  pose proof (open_retry_steady (limit_path dir rolname) (open_eagain w0) w0
                eq_refl) as S.
  change (fs w0 (limit_path dir rolname)) with (fs w (limit_path dir rolname)) in S.
  rewrite Hfs in S. change (Z.pos 11 =? EAGAIN) with true in S. cbv iota in S.
  unfold open_fuel. now rewrite S.
Qed.

Lemma open_failure_returns (rolname dir : string) (w : world) (e : positive) :
  connlimitDirectory w = Some dir ->
  OidIsValid (get_role_oid w rolname) = true ->
  isalphanum rolname = true ->
  fs w (limit_path dir rolname) = inl e ->
  Z.pos e <> EAGAIN ->
  admits (enforce_limit rolname w) = true /\
  limit_source_content rolname w = None.
Proof.
  intros Hdir Hoid Hname Hfs Hne.
  unfold enforce_limit, limit_source_content.
  rewrite Hdir, Hoid, Hname. cbn [negb andb].
  rewrite build_path_spec.
  set (w0 := log _ (log _ (log _ (log _ w)))).
  pose proof (open_retry_steady (limit_path dir rolname) (open_eagain w0) w0
                eq_refl) as S.
  change (fs w0 (limit_path dir rolname)) with (fs w (limit_path dir rolname)) in S.
  rewrite Hfs in S. apply Z.eqb_neq in Hne. rewrite Hne in S.
  destruct S as (w1 & H1 & H2 & _).
  unfold open_fuel. rewrite H1, H2. cbn [Z.eqb negb]. split; reflexivity.
Qed.



(** ** What the decision depends on *)

Lemma read_and_check_forget_errno (rolname : string) (roleid fd s1 s2 : Z)
  (w : world) :
  forget_errno (read_and_check rolname roleid fd s1 w)
  = forget_errno (read_and_check rolname roleid fd s2 w).
Proof.
  unfold read_and_check.
  destruct (read_retry _ _ _ _ _) as [[limitBuf w1]|]; [|reflexivity].
  destruct (negb (errno w1 =? 0) || (len limitBuf =? maxlen limitBuf));
    [reflexivity|].
  unfold parse_and_check.
  destruct (strtol (data (terminate limitBuf)) w1) as [limit w2].
  destruct (negb (errno w2 =? 0)); [reflexivity|].
  unfold check_quota.
  destruct (Z.of_nat (CountUserBackends w2 roleid) >=? limit); reflexivity.
Qed.

(** X7. The value of errno on entry has no effect on what the function
    does: with any other value in the slot the decision, the calls and the
    state left are the same, the errno slot apart (which holds the entry
    value again).  A stale EAGAIN in the slot starts no retry. *)
Theorem entry_errno_is_only_restored (rolname : string) (w : world) (e : Z) :
  forget_errno (enforce_limit rolname (set_errno e w))
  = forget_errno (enforce_limit rolname w) /\
  leaves_errno e (enforce_limit rolname (set_errno e w)).
Proof.
  split; [|exact (enforce_limit_leaves_errno rolname (set_errno e w))].
  unfold enforce_limit.
  change (connlimitDirectory (set_errno e w)) with (connlimitDirectory w).
  change (get_role_oid (set_errno e w)) with (get_role_oid w).
  destruct (connlimitDirectory w) as [dir|]; [|reflexivity].
  destruct (negb (OidIsValid (get_role_oid w rolname))); [reflexivity|].
  destruct (negb (isalphanum rolname)); [reflexivity|].
  rewrite !build_path_spec.
  set (w0 := log _ (log _ (log _ (log _ w)))).
  set (w0' := log _ (log _ (log _ (log _ (set_errno e w))))).
  assert (O : open_retry (open_fuel w0') (limit_path dir rolname) w0'
              = open_retry (open_fuel w0) (limit_path dir rolname) w0).
  { unfold open_fuel. rewrite !open_retry_eq. reflexivity. }
  rewrite O.
  destruct (open_retry (open_fuel w0) (limit_path dir rolname) w0)
    as [[fd w1]|]; [|reflexivity].
  destruct (negb (errno w1 =? 0)); [reflexivity|].
  apply read_and_check_forget_errno.
Qed.

(** ** The limit buffer *)

Lemma string_length_app (a b : string) :
  String.length (a ++ b) = (String.length a + String.length b)%nat.
Proof. induction a as [|c a IH]; cbn; [reflexivity|now rewrite IH]. Qed.

Lemma take_bytes_length (n : nat) (s : string) :
  (n <= String.length s)%nat -> String.length (take_bytes n s) = n.
Proof.
  unfold take_bytes. revert n.
  induction s as [|c s IH]; intros [|n] H; cbn in *; try reflexivity; try lia.
  f_equal. apply IH. lia.
Qed.

Lemma deliver_bytes (fd count : Z) (w : world) :
  let '(n, bytes, _) := deliver fd count w in
  0 < n -> Z.of_nat (String.length bytes) = n.
Proof.
  unfold deliver. destruct (opened w) as [[fd' unread]|]; [|lia].
  destruct (fd' =? fd); [|lia].
  intros _. rewrite take_bytes_length; lia.
Qed.

Lemma sys_read_bytes (fd count : Z) (w : world) :
  let '(n, bytes, _) := sys_read fd count w in
  0 < n -> Z.of_nat (String.length bytes) = n.
Proof.
  unfold sys_read.
  destruct (read_script (log (Read fd count) w)) as [|[e|k] rest].
  - apply deliver_bytes.
  - lia.
  - apply deliver_bytes.
Qed.

Lemma read_retry_invariant (fd remaining : Z) :
  forall fuel limitBuf w limitBuf1 w1,
    read_retry fuel fd remaining limitBuf w = Some (limitBuf1, w1) ->
    len limitBuf = Z.of_nat (String.length (data limitBuf)) ->
    len limitBuf <= remaining ->
    len limitBuf1 = Z.of_nat (String.length (data limitBuf1)) /\
    len limitBuf1 <= remaining /\
    maxlen limitBuf1 = maxlen limitBuf.
Proof.
  induction fuel as [|fuel IH]; intros limitBuf w limitBuf1 w1;
    [discriminate|].
  rewrite read_retry_eq.
  pose proof (sys_read_props fd (remaining - len limitBuf) (set_errno 0 w)) as P.
  pose proof (sys_read_bytes fd (remaining - len limitBuf) (set_errno 0 w)) as B.
  destruct (sys_read fd (remaining - len limitBuf) (set_errno 0 w))
    as [[n bytes] w0].
  destruct P as (Hn & _ & _). cbv zeta. intros H Hl Hr.
  set (buf1 := if 0 <? n
               then {| data := data limitBuf ++ bytes;
                       len := len limitBuf + n;
                       maxlen := maxlen limitBuf |}
               else limitBuf) in *.
  assert (I1 : len buf1 = Z.of_nat (String.length (data buf1))
               /\ len buf1 <= remaining /\ maxlen buf1 = maxlen limitBuf).
  { subst buf1. destruct (0 <? n) eqn:E; cbn [len data maxlen]; [|auto].
    apply Z.ltb_lt in E. specialize (B E).
    rewrite string_length_app, Nat2Z.inj_add. lia. }
  destruct I1 as (I1 & I2 & I3).
  match type of H with (if ?c then _ else _) = _ => destruct c end.
  - apply IH in H; [|exact I1|exact I2]. rewrite I3 in H. exact H.
  - injection H as <- <-. auto.
Qed.

(** X8. However the reads go, after the read loop the buffer holds exactly
    [len] bytes, at most 1020 of them, in its 1024 bytes: the terminator
    stored at index [len] is inside the buffer, the assertion
    [limitBuf.len < limitBuf.maxlen] holds, and the terminated content
    fits. *)
Theorem read_loop_stays_inside_buffer (fuel : nat) (fd : Z) (w : world)
  (limitBuf : StringInfoData) (w1 : world) :
  read_retry fuel fd (maxlen initStringInfo - sizeof_char_constant)
    initStringInfo w = Some (limitBuf, w1) ->
  len limitBuf = Z.of_nat (String.length (data limitBuf)) /\
  0 <= len limitBuf <= 1020 /\
  maxlen limitBuf = 1024 /\
  len limitBuf < maxlen limitBuf /\
  len (terminate limitBuf) = Z.of_nat (String.length (data (terminate limitBuf))) /\
  len (terminate limitBuf) <= maxlen (terminate limitBuf).
Proof.
  intro H. apply read_retry_invariant in H; [|reflexivity|cbn; lia].
  destruct H as (H1 & H2 & H3).
  change (maxlen initStringInfo) with 1024 in *.
  change sizeof_char_constant with 4 in *.
  unfold terminate. cbn [len data maxlen].
  rewrite string_length_app, Nat2Z.inj_add. cbn [String.length]. lia.
Qed.

Lemma read_loop_stays_inside_buffer_witness :
  exists limitBuf w1,
    read_retry 2 3 (maxlen initStringInfo - sizeof_char_constant)
      initStringInfo
      (set_opened (Some (3, repeat_char "9"%char 3000))
         (sample_world (Some "/srv/limits") "/srv/limits/arolename" "" 0 false))
    = Some (limitBuf, w1) /\
    len limitBuf < maxlen limitBuf.
Proof.
  set (w := set_opened (Some (3, repeat_char "9"%char 3000))
              (sample_world (Some "/srv/limits") "/srv/limits/arolename"
                 "" 0 false)).
  destruct (read_retry 2 3 (maxlen initStringInfo - sizeof_char_constant)
              initStringInfo w) as [[limitBuf w1]|] eqn:E;
    [|vm_compute in E; discriminate E].
  exists limitBuf, w1. split; [reflexivity|].
  apply (read_loop_stays_inside_buffer 2 3 w limitBuf w1 E).
Defined.

(** ** No state carried between checks *)

(** X9. With no transient read event pending, the decision is a function
    of the environment alone (directory setting, catalog, backend counts,
    files, libc): two states that agree on it get the same decision,
    whatever their errno, their log, their open descriptors and the number
    of opens that first fail with EAGAIN. *)
Theorem decision_depends_only_on_environment (rolname : string)
  (w1 w2 : world) :
  connlimitDirectory w1 = connlimitDirectory w2 ->
  get_role_oid w1 = get_role_oid w2 ->
  CountUserBackends w1 = CountUserBackends w2 ->
  fs w1 = fs w2 ->
  strtol_einval w1 = strtol_einval w2 ->
  read_script w1 = [] ->
  read_script w2 = [] ->
  admits (enforce_limit rolname w1) = admits (enforce_limit rolname w2) /\
  rejects (enforce_limit rolname w1) = rejects (enforce_limit rolname w2).
Proof.
  intros Hd Hr Hc Hf Hs H1 H2.
  destruct (connlimitDirectory w2) as [dir|] eqn:Hd2.
  2:{ now rewrite !null_directory_admits. }
  destruct (OidIsValid (get_role_oid w2 rolname)) eqn:Ho2.
  2:{ rewrite !unknown_role_returns; [auto|exact Ho2|now rewrite Hr]. }
  assert (Ho1 : OidIsValid (get_role_oid w1 rolname) = true) by now rewrite Hr.
  destruct (isalphanum rolname) eqn:Hn.
  2:{ now rewrite !enforce_limit_invalid_name. }
  destruct (fs w2 (limit_path dir rolname)) as [e|content] eqn:Hf2.
  - assert (Hf1 : fs w1 (limit_path dir rolname) = inl e) by now rewrite Hf.
    destruct (Z.eq_dec (Z.pos e) EAGAIN) as [E|E].
    + unfold EAGAIN in E. injection E as ->.
      now rewrite !(persistent_eagain_diverges rolname dir).
    + destruct (open_failure_returns _ _ _ _ Hd Ho1 Hn Hf1 E) as [A1 L1].
      destruct (open_failure_returns _ _ _ _ Hd2 Ho2 Hn Hf2 E) as [A2 L2].
      rewrite A1, A2. split; [reflexivity|].
      destruct (enforce_limit rolname w1); [|discriminate A1..].
      destruct (enforce_limit rolname w2); [|discriminate A2..].
      reflexivity.
  - assert (Hf1 : fs w1 (limit_path dir rolname) = inr content)
      by now rewrite Hf.
    pose proof (limit_source_content_plain _ _ _ _ Hd Ho1 Hn Hf1 H1) as L1.
    pose proof (limit_source_content_plain _ _ _ _ Hd2 Ho2 Hn Hf2 H2) as L2.
    pose proof (enforce_limit_decision _ _ _ L1) as D1.
    pose proof (enforce_limit_decision _ _ _ L2) as D2.
    rewrite Hs, Hc, Hr in D1.
    destruct (strtol_result (strtol_einval w2) _) as [limit [x|]].
    + destruct D1 as [-> ->], D2 as [-> ->]. auto.
    + destruct D1 as [-> ->], D2 as [-> ->]. auto.
Qed.

Lemma decision_depends_only_on_environment_witness :
  admits (enforce_limit "arolename"
            (set_open_eagain 3
               (set_errno 11
                  (sample_world (Some "/srv/limits") "/srv/limits/arolename"
                     "10" 9 false))))
  = admits (enforce_limit "arolename"
              (sample_world (Some "/srv/limits") "/srv/limits/arolename"
                 "10" 9 false)).
Proof.
  apply (decision_depends_only_on_environment "arolename"
           (set_open_eagain 3
              (set_errno 11
                 (sample_world (Some "/srv/limits") "/srv/limits/arolename"
                    "10" 9 false)))
           (sample_world (Some "/srv/limits") "/srv/limits/arolename"
              "10" 9 false));
    reflexivity.
Defined.

(** ** More on the stdio revision *)

Lemma stdio_strspn_nonneg (s accept : string) : 0 <= Stdio.strspn s accept.
Proof.
  induction s as [|c rest IH]; cbn [Stdio.strspn]; [lia|].
  destruct (is_nul c); [lia|].
  destruct (Stdio.mem_char c (c_str accept)); lia.
Qed.

Lemma stdio_strspn_test (name accept : string) :
  (Stdio.strspn name accept =? strlen name)
  = string_forallb (fun c => Stdio.mem_char c (c_str accept)) (c_str name).
Proof.
  unfold strlen.
  induction name as [|c rest IH]; [reflexivity|].
  cbn [Stdio.strspn c_str].
  destruct (is_nul c); [reflexivity|].
  cbn [String.length string_forallb].
  destruct (Stdio.mem_char c (c_str accept)); cbn [andb].
  - rewrite <- IH. rewrite Nat2Z.inj_succ.
    destruct (Stdio.strspn rest accept =? Z.of_nat (String.length (c_str rest)))
      eqn:E.
    + apply Z.eqb_eq in E. apply Z.eqb_eq. lia.
    + apply Z.eqb_neq in E. apply Z.eqb_neq. lia.
  - apply Z.eqb_neq. lia.
Qed.

(** X11. The name test of the stdio revision passes exactly when every
    byte of the name is one of [a-z0-9_]; the empty name passes.  When it
    fails the function returns with the state untouched. *)
Theorem stdio_name_test_characterised (name : string) :
  (Stdio.strspn name Stdio.accept_set =? strlen name)
  = string_forallb (fun c => Stdio.mem_char c Stdio.accept_set) (c_str name) /\
  (Stdio.strspn "" Stdio.accept_set =? strlen "") = true /\
  (string_forallb (fun c => Stdio.mem_char c Stdio.accept_set) (c_str name)
   = false ->
   forall w, Stdio.enforce_limit name w = Returned w).
Proof.
  split; [exact (stdio_strspn_test name Stdio.accept_set)|].
  split; [reflexivity|].
  intros H w. apply stdio_invalid_name_returns.
  now rewrite (stdio_strspn_test name Stdio.accept_set).
Qed.

Lemma stdio_name_test_characterised_witness :
  Stdio.enforce_limit "../etc"
    (sample_world (Some "/srv/limits") "/srv/limits/arolename" "0" 0 false)
  = Returned
      (sample_world (Some "/srv/limits") "/srv/limits/arolename" "0" 0 false).
Proof.
  apply (proj2 (proj2 (stdio_name_test_characterised "../etc"))).
  reflexivity.
Defined.

Lemma stdio_allocate_failure_is_not_enforced_witness :
  admits (Stdio.enforce_limit "arolename"
            {| errno := 0;
               connlimitDirectory := Some "/srv/limits";
               get_role_oid := fun _ => 16384;
               CountUserBackends := fun _ => O;
               fs := fun _ => inl 11%positive;
               open_eagain := O;
               read_script := [];
               free_fd := 3;
               opened := None;
               strtol_einval := false;
               calls := [] |}) = true.
Proof.
  apply (stdio_allocate_failure_is_not_enforced "arolename" "/srv/limits" _
           11%positive); reflexivity.
Defined.

Lemma stdio_no_digits_admits_witness :
  admits (Stdio.enforce_limit "arolename"
            (sample_world (Some "/srv/limits") "/srv/limits/arolename"
               "  -x12" 0 false)) = true.
Proof.
  apply (stdio_no_digits_admits "arolename" "/srv/limits" "  -x12");
    reflexivity.
Defined.

Lemma stdio_admits_unless_rejects (rolname : string) (w : world) :
  admits (Stdio.enforce_limit rolname w)
  = negb (rejects (Stdio.enforce_limit rolname w)).
Proof.
  unfold Stdio.enforce_limit.
  destruct (connlimitDirectory w) as [dir|]; [|reflexivity].
  destruct (negb (OidIsValid (get_role_oid w rolname))); [reflexivity|].
  destruct (negb (Stdio.strspn rolname Stdio.accept_set =? strlen rolname));
    [reflexivity|].
  cbv zeta.
  destruct (Stdio.AllocateFile_r _ _) as [[fp|] w1]; [|reflexivity].
  destruct (Stdio.fscanf_d fp w1) as [[ret stored] w2].
  destruct (negb (ret =? 1)); [reflexivity|].
  match goal with |- context [if ?c then _ else _] => destruct c end;
    reflexivity.
Qed.

(** X15. In the stdio revision, once the file is open and [fscanf] has
    stored a limit, the backend is ended exactly when the live count is at
    least the limit, and the function returns exactly when it is below. *)
Theorem stdio_quota_decision (rolname dir content : string) (w : world)
  (limit : Z) :
  connlimitDirectory w = Some dir ->
  OidIsValid (get_role_oid w rolname) = true ->
  (Stdio.strspn rolname Stdio.accept_set =? strlen rolname) = true ->
  open_eagain w = O ->
  fs w (limit_path dir rolname) = inr content ->
  Stdio.fscanf_result (Stdio.stream_bytes (read_script w) content)
  = (1, Some limit) ->
  (rejects (Stdio.enforce_limit rolname w) = true <->
   Z.of_nat (CountUserBackends w (get_role_oid w rolname)) >= limit) /\
  (admits (Stdio.enforce_limit rolname w) = true <->
   Z.of_nat (CountUserBackends w (get_role_oid w rolname)) < limit).
Proof.
  intros Hdir Hoid Hname He Hfs Hscan.
  pose proof (stdio_enforce_limit_decision _ _ _ _ Hdir Hoid Hname He Hfs) as D.
  rewrite Hscan in D. cbn [Z.eqb Pos.eqb] in D.
  rewrite stdio_admits_unless_rejects, D.
  destruct (Z.of_nat (CountUserBackends w (get_role_oid w rolname)) >=? limit)
    eqn:E; cbn [negb].
  - apply Z.geb_le in E. split; split; (reflexivity || discriminate || lia).
  - assert (L : Z.of_nat (CountUserBackends w (get_role_oid w rolname)) < limit).
    { destruct (Z.lt_ge_cases
                  (Z.of_nat (CountUserBackends w (get_role_oid w rolname)))
                  limit) as [L|G]; [exact L|].
      apply Z.geb_le in G. congruence. }
    split; split; (reflexivity || discriminate || lia).
Qed.

Lemma stdio_quota_decision_witness :
  rejects (Stdio.enforce_limit "arolename"
             (sample_world (Some "/srv/limits") "/srv/limits/arolename"
                "10" 10 false)) = true <-> 10 >= 10.
Proof.
  exact (proj1 (stdio_quota_decision "arolename" "/srv/limits" "10"
                  (sample_world (Some "/srv/limits") "/srv/limits/arolename"
                     "10" 10 false)
                  10 eq_refl eq_refl eq_refl eq_refl eq_refl eq_refl)).
Defined.

(** ** The hook when no limit applies *)

(** X16. When the authentication failed, the directory is NULL, the role
    is unknown or its name is not alphanumeric, the hook does what the
    previous handler does and nothing else (it returns when there is
    none): no file is touched for such a connection. *)
Theorem hook_is_transparent_when_no_limit_applies (prev : option handler)
  (port : Port) (status : Z) (w : world) :
  status <> STATUS_OK \/
  connlimitDirectory w = None \/
  OidIsValid (get_role_oid w (user_name port)) = false \/
  isalphanum (user_name port) = false ->
  client_auth_hook prev port status w
  = match prev with
    | Some h => h port status w
    | None => Returned w
    end.
Proof.
  intro H. unfold client_auth_hook.
  destruct (status =? STATUS_OK) eqn:E; [|reflexivity].
  apply Z.eqb_eq in E.
  destruct H as [H|[H|[H|H]]].
  - contradiction.
  - now rewrite (null_directory_admits _ _ H).
  - now rewrite (unknown_role_returns _ _ H).
  - now rewrite (enforce_limit_invalid_name _ _ H).
Qed.

Lemma hook_is_transparent_when_no_limit_applies_witness :
  client_auth_hook (Some recording_handler) {| user_name := "no such role" |}
    STATUS_OK
    (sample_world (Some "/srv/limits") "/srv/limits/arolename" "0" 0 false)
  = recording_handler {| user_name := "no such role" |} STATUS_OK
      (sample_world (Some "/srv/limits") "/srv/limits/arolename" "0" 0 false).
Proof.
  apply (hook_is_transparent_when_no_limit_applies (Some recording_handler)
           {| user_name := "no such role" |} STATUS_OK
           (sample_world (Some "/srv/limits") "/srv/limits/arolename"
              "0" 0 false)).
  right. right. left. reflexivity.
Defined.

(** ** The file format *)








(** ** Reads *)

Lemma bounded_read_inv (fd bound : Z) (reads : list call) (fd' count : Z) :
  forallb (bounded_read fd bound) reads = true ->
  In (Read fd' count) reads ->
  fd' = fd /\ 0 <= count <= bound.
Proof.
  intros H Hin. rewrite forallb_forall in H. specialize (H _ Hin).
  cbn [bounded_read] in H.
  apply andb_prop in H. destruct H as [H Hc].
  apply andb_prop in H. destruct H as [Hf Hz].
  apply Z.eqb_eq in Hf. apply Z.leb_le in Hz, Hc. auto.
Qed.

Lemma in_repeat_open (path : string) (n : nat) (c : call) :
  In c (repeat (Open path) n) -> c = Open path.
Proof. intro H. now apply repeat_spec in H. Qed.

(** X18. Every [read] the function issues is on the descriptor its own
    [open] returned and asks for at most 1020 bytes, four less than the
    buffer holds: no read can run past the buffer. *)
Theorem reads_stay_within_the_buffer (rolname : string) (w : world) :
  enforce_limit rolname w <> Diverges ->
  exists l,
    final_calls (enforce_limit rolname w) = (calls w ++ l)%list /\
    forall fd count, In (Read fd count) l ->
      fd = free_fd w /\ 0 <= count <= 1020 /\
      count < StringInfo_initial_size.
Proof.
  intro Hd. pose proof (enforce_limit_calls rolname w) as C.
  assert (Shape : forall dir reads tail,
             forallb (bounded_read (free_fd w) 1020) reads = true ->
             (forall fd count, ~ In (Read fd count) tail) ->
             forall fd count,
               In (Read fd count)
                 (path_calls dir rolname
                    ++ repeat (Open (limit_path dir rolname)) (S (open_eagain w))
                    ++ [InitStringInfo LimitBuf] ++ reads ++ tail)%list ->
               fd = free_fd w /\ 0 <= count <= 1020 /\
               count < StringInfo_initial_size).
  { intros dir reads tail Hp Ht fd count Hin.
    apply in_app_or in Hin. destruct Hin as [Hin|Hin].
    { cbn in Hin. repeat (destruct Hin as [Hin|Hin]; [discriminate Hin|]).
      contradiction. }
    apply in_app_or in Hin. destruct Hin as [Hin|Hin].
    { apply in_repeat_open in Hin. discriminate Hin. }
    apply in_app_or in Hin. destruct Hin as [Hin|Hin].
    { cbn in Hin. destruct Hin as [Hin|[]]. discriminate Hin. }
    apply in_app_or in Hin. destruct Hin as [Hin|Hin].
    - destruct (bounded_read_inv _ _ _ _ _ Hp Hin) as [-> B].
      unfold StringInfo_initial_size. repeat split; lia.
    - exfalso. exact (Ht _ _ Hin). }
  destruct (enforce_limit rolname w) as [w'|c m w'|]; [| |congruence];
    cbn [final_calls].
  - destruct C as [->|(dir & _ & _ & [[Hc _]|(reads & Hp & Hc & _)])].
    + exists []. split; [now rewrite app_nil_r|]. intros fd count [].
    + eexists. split; [exact Hc|]. intros fd count Hin. exfalso.
      apply in_app_or in Hin. destruct Hin as [Hin|Hin].
      { cbn in Hin. repeat (destruct Hin as [Hin|Hin]; [discriminate Hin|]).
        contradiction. }
      apply in_app_or in Hin. destruct Hin as [Hin|Hin].
      { apply in_repeat_open in Hin. discriminate Hin. }
      cbn in Hin. destruct Hin as [Hin|[]]. discriminate Hin.
    + eexists. split; [exact Hc|].
      apply (Shape dir reads _ Hp). intros fd count Hin. cbn in Hin.
      repeat (destruct Hin as [Hin|Hin]; [discriminate Hin|]). contradiction.
  - destruct C as (dir & reads & _ & _ & Hp & Hc & _).
    exists (path_calls dir rolname
              ++ repeat (Open (limit_path dir rolname)) (S (open_eagain w))
              ++ [InitStringInfo LimitBuf] ++ reads ++ [])%list.
    split; [now rewrite app_nil_r|].
    apply (Shape dir reads [] Hp). intros fd count [].
Qed.

Lemma reads_stay_within_the_buffer_witness :
  exists l,
    final_calls
      (enforce_limit "arolename"
         (set_read_script [ReadFails 11; ReadFails 11]
            (sample_world (Some "/srv/limits") "/srv/limits/arolename"
               (repeat_char "1"%char 2000) 0 false)))
    = (calls (sample_world (Some "/srv/limits") "/srv/limits/arolename"
                (repeat_char "1"%char 2000) 0 false) ++ l)%list /\
    forall fd count, In (Read fd count) l ->
      fd = 3 /\ 0 <= count <= 1020 /\ count < StringInfo_initial_size.
Proof.
  apply (reads_stay_within_the_buffer "arolename"
           (set_read_script [ReadFails 11; ReadFails 11]
              (sample_world (Some "/srv/limits") "/srv/limits/arolename"
                 (repeat_char "1"%char 2000) 0 false))).
  vm_compute. discriminate.
Defined.

(** ** The probe after initialisation *)




(** ** Resources in the stdio revision *)

(** X19. Whenever the stdio revision returns, the path buffer has been
    freed and a stream it opened has been closed with [FreeFile]. *)
Theorem stdio_returns_release_everything (rolname : string) (w w' : world) :
  Stdio.enforce_limit rolname w = Returned w' ->
  held PathBuf (calls w') = held PathBuf (calls w) /\
  (opened w = None -> opened w' = None).
Proof.
  unfold Stdio.enforce_limit.
  destruct (connlimitDirectory w) as [dir|];
    [|intro H; injection H as <-; auto].
  destruct (negb (OidIsValid (get_role_oid w rolname)));
    [intro H; injection H as <-; auto|].
  destruct (negb (Stdio.strspn rolname Stdio.accept_set =? strlen rolname));
    [intro H; injection H as <-; auto|].
  cbv zeta. unfold Stdio.AllocateFile_r.
  match goal with |- context [open_eagain ?w0] =>
    change (open_eagain w0) with (open_eagain w);
    change (fs w0) with (fs w)
  end.
  destruct (open_eagain w).
  - destruct (fs w _) as [e|content].
    + unfold Stdio.cleanup. intro H. injection H as <-.
      cbn [calls opened set_errno log]. rewrite !held_app. cbn. split; [lia|auto].
    + unfold Stdio.fscanf_d.
      match goal with |- context [opened (log (Fscanf ?fp) ?w1)] =>
        change (opened (log (Fscanf fp) w1)) with (Some (fp, content))
      end.
      cbv beta iota. rewrite Z.eqb_refl.
      destruct (Stdio.fscanf_result _) as [ret stored].
      destruct (negb (ret =? 1)).
      * unfold Stdio.cleanup_opened, Stdio.cleanup, Stdio.FreeFile_.
        intro H. injection H as <-.
        cbn [calls opened set_errno set_opened set_read_script log].
        rewrite !held_app. cbn. split; [lia|auto].
      * match goal with |- context [if ?c then _ else _] => destruct c end;
          [discriminate|].
        unfold Stdio.cleanup_opened, Stdio.cleanup, Stdio.FreeFile_.
        intro H. injection H as <-.
        cbn [calls opened set_errno set_opened set_read_script log].
        rewrite !held_app. cbn. split; [lia|auto].
  - unfold Stdio.cleanup. intro H. injection H as <-.
    cbn [calls opened set_errno set_open_eagain log].
    rewrite !held_app. cbn. split; [lia|auto].
Qed.

Lemma stdio_returns_release_everything_witness :
  exists w',
    Stdio.enforce_limit "arolename"
      (sample_world (Some "/srv/limits") "/srv/limits/arolename" "10" 9 false)
    = Returned w' /\
    held PathBuf (calls w') = 0 /\
    opened w' = None.
Proof.
  set (w := sample_world (Some "/srv/limits") "/srv/limits/arolename"
              "10" 9 false).
  destruct (Stdio.enforce_limit "arolename" w) as [w'| |] eqn:E;
    [|vm_compute in E; discriminate E..].
  exists w'. split; [reflexivity|].
  destruct (stdio_returns_release_everything "arolename" w w' E) as (A & B).
  split; [exact A|]. apply B. reflexivity.
Defined.
